(** * Cryostat-GUI: the sequence engine (Sequence.py) and the serial
      driver's buffer clearing (drivers.py)

    The Python code is embedded shallowly.  Numbers are exact rationals
    ([Q]); a call into an instrument thread, a GUI hook, a sleep or an
    emitted signal is an [event] appended to the worker's trace.  Everything
    the worker cannot control (the telemetry other threads write, the moment
    [stop()] is called, what an instrument answers) is a [World]. *)

From Stdlib Require Import QArith Qabs Qminmax ZArith List String Bool Lia.
From stdpp Require Import gmap strings.

Local Open Scope string_scope.
Local Open Scope list_scope.

(** ** Python values, exceptions, outcomes *)

#[warnings="-register-all"]
Inductive pyval :=
| VNone
| VNum (q : Q)
| VStr (s : string)
| VList (l : list pyval).

Inductive exn :=
| BreakCondition
| KeyError (key : string)
| TypeError
| ValueError
| ZeroDivisionError
| OverflowError
| DeviceFault (code : Z).

(** [Diverged] is the answer of a loop that used up its fuel. *)
Inductive outcome (A : Type) :=
| Returned (a : A)
| Raised (e : exn)
| Diverged.
Arguments Returned {A} a.
Arguments Raised {A} e.
Arguments Diverged {A}.

(** ** What the worker thread does: events *)

Inductive window := ITC_window | ILM_window | IPS_window | LakeShore350_window.

Inductive call :=
| gettoset_Temperature (q : Q)
| setTemperature
| gettoset_Temp_K (q : Q)
| setTemp_K
| read_Temperatures
| getto_setCurrent_A (q : Q)
| setCurrent_A (q : Q)
| read_Voltage.

Inductive event :=
| EvSetEnabled (win : window) (b : bool)
| EvCall (thread : string) (c : call)
| EvLoopcontrol (b : bool)
| EvSleep (d : Q)
| EvAborted.

(** ** The environment of the worker

    Every primitive action of the worker takes one unit of (logical) time,
    so [now] counts the actions done so far.  [stop_at = Some t] says that
    another thread ran [stop()] before the worker's action number [t]; the
    flag is never set back.  [Sensor_1_K t] is what
    [mainthread.data['LakeShore350']['Sensor_1_K']] holds at time [t].  An
    instrument answers a call knowing the calls made so far. *)
Record World := {
  stop_at : option nat;
  Sensor_1_K : nat -> Q;
  instrument : list event -> string -> call -> outcome Q;
  loopcontrol : list event -> bool -> outcome unit
}.

Definition isRunning (w : World) (t : nat) : bool :=
  match stop_at w with
  | None => true
  | Some t0 => (t <? t0)%nat
  end.

Record state := { now : nat; trace : list event }.

Definition tick (ev : list event) (s : state) : state :=
  {| now := S (now s); trace := trace s ++ ev |}.

(** ** A state-and-exception monad *)

Definition M (A : Type) : Type := state -> outcome A * state.

Definition ret {A} (a : A) : M A := fun s => (Returned a, s).
Definition raise {A} (e : exn) : M A := fun s => (Raised e, s).
Definition diverge {A} : M A := fun s => (Diverged, s).

Definition bind {A B} (m : M A) (k : A -> M B) : M B :=
  fun s =>
    match m s with
    | (Returned a, s') => k a s'
    | (Raised e, s') => (Raised e, s')
    | (Diverged, s') => (Diverged, s')
    end.

Declare Scope py_scope.
Delimit Scope py_scope with py.
Notation "x <- m ;; k" := (bind m (fun x => k))
  (at level 100, m at next level, right associativity) : py_scope.
Notation "m ;;; k" := (bind m (fun _ => k))
  (at level 100, right associativity) : py_scope.
Local Open Scope py_scope.

(** [try: body except BreakCondition: handler] *)
Definition try_except_Break {A} (body handler : M A) : M A :=
  fun s =>
    match body s with
    | (Raised BreakCondition, s') => handler s'
    | r => r
    end.

(** [try: body finally: final].  A body that never ends never reaches
    [final]; an exception of [final] replaces the body's result. *)
Definition try_finally {A} (body : M A) (final : M unit) : M A :=
  fun s =>
    match body s with
    | (Diverged, s') => (Diverged, s')
    | (r, s') =>
        match final s' with
        | (Returned _, s'') => (r, s'')
        | (Raised e, s'') => (Raised e, s'')
        | (Diverged, s'') => (Diverged, s'')
        end
    end.

(** [for x in l: body x] *)
Fixpoint for_each {A} (l : list A) (body : A -> M unit) : M unit :=
  match l with
  | [] => ret tt
  | x :: l' => body x ;;; for_each l' body
  end.

(** A [for] loop that updates a local variable of type [B]. *)
Fixpoint for_acc {A B} (l : list A) (body : B -> A -> M B) (b : B) : M B :=
  match l with
  | [] => ret b
  | x :: l' => b' <- body b x ;; for_acc l' body b'
  end.

(** ** Python primitives *)

Definition getitem (d : gmap string pyval) (k : string) : M pyval :=
  match d !! k with
  | Some v => ret v
  | None => raise (KeyError k)
  end.

Definition as_num (v : pyval) : M Q :=
  match v with
  | VNum q => ret q
  | _ => raise TypeError
  end.

(** Iterating a value: a list gives its elements, the empty string gives
    nothing, a non-empty string gives strings (one per character, kept
    whole here: any of them fails the arithmetic that follows), a number
    or [None] is not iterable. *)
Definition iterate (v : pyval) : M (list pyval) :=
  match v with
  | VList l => ret l
  | VStr "" => ret []
  | VStr s => ret [VStr s]
  | _ => raise TypeError
  end.

Definition is_str (v : pyval) (s : string) : bool :=
  match v with
  | VStr s' => if decide (s' = s) then true else false
  | _ => false
  end.

(** [x < y] and [x > y] on numbers *)
Definition Qltb (x y : Q) : bool := negb (Qle_bool y x).
Definition Qgtb (x y : Q) : bool := Qltb y x.

(** [numpy.mean]; on an empty list numpy answers [nan], here the quotient
    by zero, which is [0]. *)
Definition mean (l : list Q) : Q :=
  (fold_right Qplus 0 l / inject_Z (Z.of_nat (length l)))%Q.

Section Engine.

Variable w : World.

(** [numpy.sqrt], outside the repository. *)
Variable np_sqrt : Q -> Q.

Definition std (l : list Q) : Q :=
  np_sqrt (mean (map (fun x => (x - mean l) * (x - mean l))%Q l)).

(** *** Actions of the worker *)

Definition emit (e : event) : M unit :=
  fun s => (Returned tt, tick [e] s).

Definition read_isRunning : M bool :=
  fun s => (Returned (isRunning w (now s)), tick [] s).

Definition read_Sensor_1_K : M Q :=
  fun s => (Returned (Sensor_1_K w (now s)), tick [] s).

Definition call_thread (thread : string) (c : call) : M Q :=
  fun s => (instrument w (trace s) thread c, tick [EvCall thread c] s).

(** The durations [time.sleep] can take: it keeps the duration as a signed
    64-bit count of nanoseconds. *)
Definition sleep_min : Q := -9223372036854775808 # 1000000000.
Definition sleep_max : Q := 9223372036854775807 # 1000000000.

(** [time.sleep(d)]: a duration that does not fit the nanosecond count is
    an [OverflowError]; one that fits and is negative is a [ValueError]. *)
Definition sleep (d : Q) : M unit :=
  if Qle_bool sleep_min d && Qle_bool d sleep_max then
    if Qle_bool 0 d then emit (EvSleep d) else raise ValueError
  else raise OverflowError.

Definition setEnabled (win : window) (b : bool) : M unit :=
  emit (EvSetEnabled win b).

(** Modelled from the spec: [util.loopcontrol_threads], which is not in
    the sources at hand.  The spec calls it an external collaborator call
    that pauses ([False]) and resumes ([True]) the dependent automatic
    control loops; here it is one event, answered by the world. *)
Definition loopcontrol_threads (b : bool) : M unit :=
  fun s => (loopcontrol w (trace s) b, tick [EvLoopcontrol b] s).

(** [d[name]] on a dictionary of threads; the key may be [None]. *)
Definition getthread (threads : gset string) (name : option string) : M string :=
  match name with
  | Some n => if decide (n ∈ threads) then ret n else raise (KeyError n)
  | None => raise (KeyError "None")
  end.

(** *** measure_resistance (Sequence.py, lines 30-54) *)

Record Conf := {
  threads : gset string;
  threadname_Temp : option string;
  threadname_RES : option string;
  threadname_CURR : option string;
  current_applied : option Q;
  n_measurements : nat
}.

Record Data := {
  T_mean_K : Q;
  T_std_K : Q;
  R_mean_Ohm : Q;
  R_std_Ohm : Q
}.

(** [conf['current_applied']*currentfactor] *)
Definition current_times (conf : Conf) (currentfactor : Q) : M Q :=
  match current_applied conf with
  | Some i => ret (i * currentfactor)%Q
  | None => raise TypeError
  end.

Definition divide (x y : Q) : M Q :=
  if Qeq_bool y 0 then raise ZeroDivisionError else ret (x / y)%Q.

(** Lines 41-44, one polarity. *)
Definition measure_once (conf : Conf) (resistances : list Q) (currentfactor : Q)
  : M (list Q) :=
  th <- getthread (threads conf) (threadname_CURR conf) ;;
  i <- current_times conf currentfactor ;;
  call_thread th (getto_setCurrent_A i) ;;;
  th <- getthread (threads conf) (threadname_CURR conf) ;;
  i <- current_times conf currentfactor ;;
  call_thread th (setCurrent_A i) ;;;
  th <- getthread (threads conf) (threadname_RES conf) ;;
  v <- call_thread th read_Voltage ;;
  let voltage := (v * currentfactor)%Q in
  i <- current_times conf currentfactor ;;
  r <- divide voltage i ;;
  ret (resistances ++ [r]).

Definition measure_resistance (conf : Conf) : M Data :=
  loopcontrol_threads false ;;;
  th <- getthread (threads conf) (threadname_Temp conf) ;;
  t0 <- call_thread th read_Temperatures ;;
  resistances <-
    for_acc (seq 0 (n_measurements conf))
      (fun rs _ => for_acc [1%Q; (-1)%Q] (measure_once conf) rs) [] ;;
  th <- getthread (threads conf) (threadname_Temp conf) ;;
  t1 <- call_thread th read_Temperatures ;;
  loopcontrol_threads true ;;;
  let temps := [t0; t1] in
  ret {| T_mean_K := mean temps;
         T_std_K := std temps;
         R_mean_Ohm := mean resistances;
         R_std_Ohm := std resistances |}.

(** *** Sequence_Thread (Sequence.py, lines 57-152) *)

Record Sequence_Thread := {
  sequence : list (gmap string pyval);
  mainthread_threads : gset string;
  temp_VTI_offset : Q
}.

(** Lines 83-84. *)
Definition temp_setpoint_VTI (self : Sequence_Thread) (temp_setpoint_sample : Q) : Q :=
  let v := (temp_setpoint_sample - temp_VTI_offset self)%Q in
  if Qltb v 4.3 then 4.3%Q else v.

Definition check_Temp_in_Scan (Temp : Q) : M unit := ret tt.

(** The [while] loop of [wait_for_Temp]; one unit of fuel per turn. *)
Fixpoint wait_loop (fuel : nat) (Temp_target threshold Temp_now : Q) : M unit :=
  if Qgtb (Qabs (Temp_now - Temp_target)) threshold then
    match fuel with
    | O => diverge
    | S fuel' =>
        Temp_now' <- read_Sensor_1_K ;;
        sleep 0.1 ;;;
        wait_loop fuel' Temp_target threshold Temp_now'
    end
  else ret tt.

Definition wait_for_Temp (fuel : nat) (Temp_target : pyval) (threshold : Q) : M unit :=
  running <- read_isRunning ;;
  if negb running then raise BreakCondition
  else
    Temp_now <- read_Sensor_1_K ;;
    target <- as_num Temp_target ;;
    wait_loop fuel target threshold Temp_now.

Definition wait_for_Field (Field : pyval) : M unit :=
  running <- read_isRunning ;;
  if negb running then raise BreakCondition
  else sleep 0.1.

Definition scan_T_step (self : Sequence_Thread) (x : pyval) : M unit :=
  temp_setpoint_sample <- as_num x ;;
  let vti := temp_setpoint_VTI self temp_setpoint_sample in
  itc <- getthread (mainthread_threads self) (Some "control_ITC") ;;
  call_thread itc (gettoset_Temperature vti) ;;;
  itc <- getthread (mainthread_threads self) (Some "control_ITC") ;;
  call_thread itc setTemperature ;;;
  ls <- getthread (mainthread_threads self) (Some "control_LakeShore350") ;;
  call_thread ls (gettoset_Temp_K temp_setpoint_sample) ;;;
  ls <- getthread (mainthread_threads self) (Some "control_LakeShore350") ;;
  call_thread ls setTemp_K ;;;
  check_Temp_in_Scan temp_setpoint_sample.

(** Lines 81-99, one entry of the sequence. *)
Definition run_entry (self : Sequence_Thread) (fuel : nat)
  (entry : gmap string pyval) : M unit :=
  typ <- getitem entry "typ" ;;
  (if is_str typ "scan_T" then
     temps <- getitem entry "sequence_temperature" ;;
     l <- iterate temps ;;
     for_each l (scan_T_step self)
   else ret tt) ;;;
  typ <- getitem entry "typ" ;;
  if is_str typ "Wait" then
    Temp <- getitem entry "Temp" ;;
    wait_for_Temp fuel Temp 0.01 ;;;
    Field <- getitem entry "Field" ;;
    wait_for_Field Field ;;;
    Delay <- getitem entry "Delay" ;;
    d <- as_num Delay ;;
    sleep d
  else ret tt.

Definition setpoints_setEnabled (b : bool) : M unit :=
  setEnabled ITC_window b ;;;
  setEnabled ILM_window b ;;;
  setEnabled IPS_window b ;;;
  setEnabled LakeShore350_window b.

Definition run_entries (self : Sequence_Thread) (fuel : nat)
  (l : list (gmap string pyval)) : M unit :=
  for_each l (run_entry self fuel).

(** Lines 74-107.  The method returns ['Aborted!'] or [None]. *)
Definition running (self : Sequence_Thread) (fuel : nat) : M (option string) :=
  try_finally
    (try_except_Break
       (setpoints_setEnabled false ;;;
        run_entries self fuel (sequence self) ;;;
        ret None)
       (emit EvAborted ;;; ret (Some "Aborted!")))
    (setpoints_setEnabled true).

End Engine.

(** ** Simulated rigs *)

(** The current the source drives: the argument of the last [setCurrent_A]. *)
Fixpoint last_current (tr : list event) (i : Q) : Q :=
  match tr with
  | [] => i
  | EvCall _ (setCurrent_A x) :: tr' => last_current tr' x
  | _ :: tr' => last_current tr' i
  end.

(** A sample of true resistance [R] with a constant offset voltage [V_off]:
    the voltmeter reads [I * R + V_off] for the current [I] being driven.
    Nothing faults and nobody calls [stop()]. *)
Definition sim_rig (R V_off T : Q) : World :=
  {| stop_at := None;
     Sensor_1_K := fun _ => T;
     instrument := fun tr _ c =>
       match c with
       | read_Voltage => Returned (last_current tr 0 * R + V_off)%Q
       | read_Temperatures => Returned T
       | _ => Returned 0%Q
       end;
     loopcontrol := fun _ _ => Returned tt |}.

Definition s0 : state := {| now := 0; trace := [] |}.

Definition oneshot_conf (i : option Q) (n : nat) :=
  {| threads := {[ "control_LakeShore350"; "control_Keithley"; "control_Nano" ]} : gset string;
     threadname_Temp := Some "control_LakeShore350";
     threadname_RES := Some "control_Nano";
     threadname_CURR := Some "control_Keithley";
     current_applied := i;
     n_measurements := n |}.

(** ** The serial driver (drivers.py) *)

Module Drivers.

Inductive exc_class := VisaIOError | OtherError (name : string).

Inductive arg := AInt (z : Z) | AStr (s : string).

(** An exception object: its class and its [args] tuple. *)
Record exception := { exc_type : exc_class; args : list arg }.

#[global] Instance exc_class_eq_dec : EqDecision exc_class.
Proof. solve_decision. Defined.
#[global] Instance arg_eq_dec : EqDecision arg.
Proof. solve_decision. Defined.

Inductive result (A : Type) := Ok (a : A) | Err (e : exception).
Arguments Ok {A} a.
Arguments Err {A} e.

(** No class modelled here derives from [VisaIOError]. *)
Definition isinstance (e : exception) (c : exc_class) : bool :=
  if decide (exc_type e = c) then true else false.

Section Serial.

(** pyvisa's table of messages: [VisaIOError(code)] stores the one
    formatted message of [code] as its only argument. *)
Variable visa_message : Z -> string.

Definition new_VisaIOError (error_code : Z) : exception :=
  {| exc_type := VisaIOError; args := [AStr (visa_message error_code)] |}.

(** Line 47. *)
Definition timeouterror : exception := new_VisaIOError (-1073807339).

(** The VISA resource and its [read()], outside the repository. *)
Variable resource : Type.
Variable visa_read : resource -> result string * resource.

(** Lines 99-103; the lock is taken and given back on both paths. *)
Definition read (r : resource) : result string * resource := visa_read r.

(** Lines 105-114. *)
Definition clear_buffers (r : resource) : result unit * resource :=
  match read r with
  | (Ok _, r') => (Ok tt, r')
  | (Err e_visa, r') =>
      if isinstance e_visa VisaIOError then
        if isinstance e_visa (exc_type timeouterror)
           && (if decide (args e_visa = args timeouterror) then true else false)
        then (Ok tt, r')
        else (Err e_visa, r')
      else (Err e_visa, r')
  end.

End Serial.

End Drivers.

(** ** Sequences, engines and further rigs used below *)

Definition scan_entry (targets : list Q) : gmap string pyval :=
  <["typ" := VStr "scan_T"]>
    (<["sequence_temperature" := VList (map VNum targets)]> ∅).

Definition wait_entry (T F D : Q) : gmap string pyval :=
  <["typ" := VStr "Wait"]>
    (<["Temp" := VNum T]> (<["Field" := VNum F]> (<["Delay" := VNum D]> ∅))).

Definition other_entry (typ : string) : gmap string pyval :=
  <["typ" := VStr typ]> ∅.

Definition engine (l : list (gmap string pyval)) (offset : Q) : Sequence_Thread :=
  {| sequence := l;
     mainthread_threads := {[ "control_ITC"; "control_LakeShore350" ]};
     temp_VTI_offset := offset |}.


(** The rig of [sim_rig] on which [stop()] ran before the worker's action
    number [t]. *)
Definition stopped_rig (t : nat) (T : Q) : World :=
  {| stop_at := Some t;
     Sensor_1_K := Sensor_1_K (sim_rig 0 0 T);
     instrument := instrument (sim_rig 0 0 T);
     loopcontrol := loopcontrol (sim_rig 0 0 T) |}.

(** A rig whose voltmeter fails every read. *)
Definition broken_voltmeter : World :=
  {| stop_at := None;
     Sensor_1_K := fun _ => 0%Q;
     instrument := fun _ _ c =>
       match c with
       | read_Voltage => Raised (DeviceFault (-1073807339))
       | _ => Returned 0%Q
       end;
     loopcontrol := fun _ _ => Returned tt |}.

(** The arguments of the [gettoset_Temperature] calls of a trace. *)
Definition vti_commands (tr : list event) : list Q :=
  flat_map (fun e => match e with
                     | EvCall _ (gettoset_Temperature q) => [q]
                     | _ => []
                     end) tr.

(** The currents commanded in a trace, in order. *)
Definition current_commands (tr : list event) : list Q :=
  flat_map (fun e => match e with
                     | EvCall _ (getto_setCurrent_A q) => [q]
                     | EvCall _ (setCurrent_A q) => [q]
                     | _ => []
                     end) tr.

Definition is_setEnabled (e : event) : bool :=
  match e with EvSetEnabled _ _ => true | _ => false end.

Definition is_sleep (e : event) : bool :=
  match e with EvSleep _ => true | _ => false end.

(** Commands that reach the hardware: setpoints and currents. *)
Definition is_hardware_write (e : event) : bool :=
  match e with
  | EvCall _ (gettoset_Temperature _) | EvCall _ setTemperature
  | EvCall _ (gettoset_Temp_K _) | EvCall _ setTemp_K
  | EvCall _ (getto_setCurrent_A _) | EvCall _ (setCurrent_A _) => true
  | _ => false
  end.

Definition setpoints_events (b : bool) : list event :=
  [EvSetEnabled ITC_window b; EvSetEnabled ILM_window b;
   EvSetEnabled IPS_window b; EvSetEnabled LakeShore350_window b].

(** A message table and a scripted VISA resource: each [read()] takes the
    next scripted result; with nothing scripted the read times out. *)
Definition sample_message (code : Z) : string :=
  if decide (code = (-1073807339)%Z)
  then "VI_ERROR_TMO (-1073807339): Timeout expired before operation completed."
  else "?: Unknown code.".

Definition scripted_read (r : list (Drivers.result string))
  : Drivers.result string * list (Drivers.result string) :=
  match r with
  | [] => (Drivers.Err (Drivers.timeouterror sample_message), [])
  | x :: r' => (x, r')
  end.

(** [adds P m]: whatever [m] does, it only appends events, and every event
    it appends satisfies [P]. *)
Definition adds {A} (P : event -> Prop) (m : M A) : Prop :=
  forall s r s', m s = (r, s') ->
    exists evs, trace s' = trace s ++ evs /\ Forall P evs.

Definition not_setEnabled (e : event) : Prop := is_setEnabled e = false.

Definition returns {A} (r : outcome A) : bool :=
  match r with Returned _ => true | _ => false end.

(** [commands cs m]: when [m] returns, the currents it has commanded are
    exactly [cs], in this order. *)
Definition commands {A} (cs : list Q) (m : M A) : Prop :=
  forall s a s', m s = (Returned a, s') ->
    current_commands (trace s') = current_commands (trace s) ++ cs.

Definition not_current (e : event) : Prop := current_commands [e] = [].

(** One turn of the outer loop of [measure_resistance] commands [i], [i],
    [-i], [-i]: prepare and commit for each polarity. *)
Definition reversal (i : Q) : list Q :=
  [(i * 1)%Q; (i * 1)%Q; (i * -1)%Q; (i * -1)%Q].

(** [fails m]: [m] never returns a value. *)
Definition fails {A} (m : M A) : Prop :=
  forall s, returns (fst (m s)) = false.

(** The same world with another moment for [stop()]. *)
Definition with_stop (w : World) (o : option nat) : World :=
  {| stop_at := o;
     Sensor_1_K := Sensor_1_K w;
     instrument := instrument w;
     loopcontrol := loopcontrol w |}.

(** ** Notions for further properties of the engine *)

(** A reading within the threshold of the target. *)
Definition near (target threshold x : Q) : Prop :=
  (Qabs (x - target) <= threshold)%Q.

(** The readings [wait_for_Temp] takes when entered in state [s]: the
    first one right after the flag, then one per turn of the loop (a turn
    is a reading and a sleep, two actions). *)
Definition Temp_reading (w : World) (s : state) (j : nat) : Q :=
  match j with
  | O => Sensor_1_K w (S (now s))
  | S _ => Sensor_1_K w (now s + 2 * j)
  end.

Definition is_aborted (e : event) : bool :=
  match e with EvAborted => true | _ => false end.

Definition is_loopcontrol (e : event) : bool :=
  match e with EvLoopcontrol _ => true | _ => false end.

(** No intermediate-stage setpoint below 4.3 K. *)
Definition vti_floor (e : event) : Prop :=
  match e with
  | EvCall _ (gettoset_Temperature q) => (4.3 <= q)%Q
  | _ => True
  end.

(** The four calls a scan makes for one target. *)
Definition scan_events (self : Sequence_Thread) (t : Q) : list event :=
  [EvCall "control_ITC" (gettoset_Temperature (temp_setpoint_VTI self t));
   EvCall "control_ITC" setTemperature;
   EvCall "control_LakeShore350" (gettoset_Temp_K t);
   EvCall "control_LakeShore350" setTemp_K].

(** Instruments that always answer: no exception, no hanging call. *)
Definition answers (w : World) : Prop :=
  forall tr th c, exists q, instrument w tr th c = Returned q.

(** Instruments that never raise the engine's own [BreakCondition]. *)
Definition no_foreign_break (w : World) : Prop :=
  forall tr th c, instrument w tr th c <> Raised BreakCondition.

(** A rig whose sensor follows a list of readings, then stays at [T]. *)
Definition drifting_rig (readings : list Q) (T : Q) : World :=
  {| stop_at := None;
     Sensor_1_K := fun t => nth t readings T;
     instrument := instrument (sim_rig 0 0 T);
     loopcontrol := loopcontrol (sim_rig 0 0 T) |}.

(** [no_break m]: [m] never raises [BreakCondition]. *)
Definition no_break {A} (m : M A) : Prop :=
  forall s r s', m s = (r, s') -> r <> Raised BreakCondition.

(** The state once the four setpoint widgets have been switched. *)
Definition after_setpoints (b : bool) (s : state) : state :=
  snd (setpoints_setEnabled b s).

Definition not_aborted (e : event) : Prop := is_aborted e = false.

(** A loop control that always answers. *)
Definition loops_ok (w : World) : Prop :=
  forall tr b, loopcontrol w tr b = Returned tt.

Definition not_loopcontrol (e : event) : Prop := is_loopcontrol e = false.

(** The calls of one sample: for each polarity, prepare and commit the
    current on the source [tC], then read the voltmeter [tR]. *)
Definition sample_events (tC tR : string) (i : Q) : list event :=
  [EvCall tC (getto_setCurrent_A (i * 1)); EvCall tC (setCurrent_A (i * 1));
   EvCall tR read_Voltage;
   EvCall tC (getto_setCurrent_A (i * -1)); EvCall tC (setCurrent_A (i * -1));
   EvCall tR read_Voltage].

(** ** Python strings, as far as the drivers use them

    A [string] stands for a Python [str] whose characters have code points
    below 256. *)

Module PyStr.

(** [str.isspace] on one character: tab to carriage return, the four
    separators 28 to 31, the space, NEL (133) and the no-break space (160). *)
Definition is_space (c : Ascii.ascii) : bool :=
  let n := Ascii.nat_of_ascii c in
  ((9 <=? n) && (n <=? 13) || (28 <=? n) && (n <=? 32) || (n =? 133) || (n =? 160))%nat.

Fixpoint lstrip (s : string) : string :=
  match s with
  | EmptyString => EmptyString
  | String c s' => if is_space c then lstrip s' else s
  end.

Fixpoint rstrip (s : string) : string :=
  match s with
  | EmptyString => EmptyString
  | String c s' =>
      match rstrip s' with
      | EmptyString => if is_space c then EmptyString else String c EmptyString
      | r => String c r
      end
  end.

(** [s.strip()] *)
Definition strip (s : string) : string := rstrip (lstrip s).

(** [s.split(sep)] for a separator of one character: never an empty list. *)
Fixpoint split (sep : Ascii.ascii) (s : string) : list string :=
  match s with
  | EmptyString => [EmptyString]
  | String c s' =>
      if Ascii.eqb c sep then EmptyString :: split sep s'
      else match split sep s' with
           | f :: fs => String c f :: fs
           | [] => [String c EmptyString]
           end
  end.

(** [sep.join(l)] *)
Fixpoint join (sep : Ascii.ascii) (l : list string) : string :=
  match l with
  | [] => EmptyString
  | [x] => x
  | x :: l' => String.append x (String sep (join sep l'))
  end.

(** The character [','] *)
Definition comma : Ascii.ascii := Ascii.ascii_of_nat 44.

Definition newline : string := String (Ascii.ascii_of_nat 10) EmptyString.

(** How often [c] occurs in [s]. *)
Fixpoint count (c : Ascii.ascii) (s : string) : nat :=
  match s with
  | EmptyString => 0
  | String c' s' => (if Ascii.eqb c' c then 1 else 0) + count c s'
  end.

Fixpoint all_space (s : string) : bool :=
  match s with
  | EmptyString => true
  | String c s' => is_space c && all_space s'
  end.

Definition starts_with_space (s : string) : bool :=
  match s with
  | EmptyString => false
  | String c _ => is_space c
  end.

Fixpoint ends_with_space (s : string) : bool :=
  match s with
  | EmptyString => false
  | String c EmptyString => is_space c
  | String _ s' => ends_with_space s'
  end.

End PyStr.

(** ** The drivers with their communication lock (drivers.py)

    A driver talks to its VISA resource under [self._comLock].  The bus
    keeps the state of the lock and a log of what was done; the instrument
    at the other end answers an operation knowing the log so far.  A lock
    found held belongs to another thread: taking it waits, here
    [Blocked]. *)

Module Bus.

Inductive op :=
| Write (command : string)
| Query (command : string)
| Read.

Inductive action :=
| Acquire
| Release
| Visa (o : op)
| Sleep (d : Q).

Record Device := { respond : list action -> op -> Drivers.result string }.

Record bus := { comLock : bool; log : list action }.

Inductive res (A : Type) :=
| Done (a : A)
| Fail (e : Drivers.exception)
| Blocked.
Arguments Done {A} a.
Arguments Fail {A} e.
Arguments Blocked {A}.

Definition B (A : Type) : Type := bus -> res A * bus.

Definition ret {A} (a : A) : B A := fun s => (Done a, s).

Definition bind {A C} (m : B A) (k : A -> B C) : B C :=
  fun s =>
    match m s with
    | (Done a, s') => k a s'
    | (Fail e, s') => (Fail e, s')
    | (Blocked, s') => (Blocked, s')
    end.

(** One operation on [self._visa_resource]. *)
Definition visa (dev : Device) (o : op) : B string :=
  fun s =>
    (match respond dev (log s) o with
     | Drivers.Ok a => Done a
     | Drivers.Err e => Fail e
     end,
     {| comLock := comLock s; log := log s ++ [Visa o] |}).

Definition ValueError : Drivers.exception :=
  {| Drivers.exc_type := Drivers.OtherError "ValueError";
     Drivers.args := [Drivers.AStr "sleep length must be non-negative"] |}.

(** [time.sleep(d)] *)
Definition sleep (d : Q) : B unit :=
  fun s =>
    if Qle_bool 0 d
    then (Done tt, {| comLock := comLock s; log := log s ++ [Sleep d] |})
    else (Fail ValueError, s).

(** [with self._comLock: body]: the lock is given back when the body
    returns and when it raises. *)
Definition with_lock {A} (body : B A) : B A :=
  fun s =>
    if comLock s then (Blocked, s)
    else
      match body {| comLock := true; log := log s ++ [Acquire] |} with
      | (Blocked, s') => (Blocked, s')
      | (r, s') => (r, {| comLock := false; log := log s' ++ [Release] |})
      end.

(** The two delays of [AbstractSerialDeviceDriver]; [__init__] sets both
    to 0.1 (lines 63-64). *)
Record AbstractSerialDeviceDriver := { delay : Q; delay_force : Q }.

Definition new_driver : AbstractSerialDeviceDriver :=
  {| delay := 0.1; delay_force := 0.1 |}.

(** Lines 76-87. *)
Definition write (self : AbstractSerialDeviceDriver) (dev : Device)
  (command : string) (f : bool) : B unit :=
  if negb f then
    with_lock (bind (visa dev (Write command)) (fun _ => sleep (delay self)))
  else
    bind (visa dev (Write command)) (fun _ => sleep (delay_force self)).

(** Lines 89-97. *)
Definition query (self : AbstractSerialDeviceDriver) (dev : Device)
  (command : string) : B string :=
  with_lock
    (bind (visa dev (Query command))
       (fun answer => bind (sleep (delay self)) (fun _ => ret answer))).

(** Lines 99-103. *)
Definition read (dev : Device) : B string :=
  with_lock (visa dev Read).

(** Lines 105-114, with the lock that [read] takes. *)
Definition clear_buffers (visa_message : Z -> string) (dev : Device) : B unit :=
  fun s =>
    match read dev s with
    | (Done _, s') => (Done tt, s')
    | (Fail e_visa, s') =>
        if Drivers.isinstance e_visa Drivers.VisaIOError then
          if Drivers.isinstance e_visa
               (Drivers.exc_type (Drivers.timeouterror visa_message))
             && (if decide (Drivers.args e_visa
                            = Drivers.args (Drivers.timeouterror visa_message))
                 then true else false)
          then (Done tt, s')
          else (Fail e_visa, s')
        else (Fail e_visa, s')
    | (Blocked, s') => (Blocked, s')
    end.

Inductive manager := NI_RESOURCE_MANAGER | AGILENT_RESOURCE_MANAGER.

(** Lines 51-52 and 124-125: the choice made by both constructors. *)
Definition resource_manager (nivsag : string) : manager :=
  if decide (PyStr.strip nivsag = "ag") then AGILENT_RESOURCE_MANAGER
  else NI_RESOURCE_MANAGER.

(** [AbstractGPIBDeviceDriver.query], lines 131-141. *)
Definition gpib_query (dev : Device) (command : string) : B (list string) :=
  bind (with_lock (visa dev (Query command)))
    (fun received => ret (PyStr.split PyStr.comma (PyStr.strip received))).

(** [AbstractGPIBDeviceDriver.go], lines 143-151. *)
Definition go (dev : Device) (command : string) : B unit :=
  bind (with_lock (visa dev (Write command))) (fun _ => ret tt).

Definition is_locking (a : action) : bool :=
  match a with Acquire | Release => true | _ => false end.

(** An instrument that echoes its script: the n-th operation gets the
    n-th scripted answer, and a timeout when the script is used up. *)
Definition scripted (visa_message : Z -> string)
  (script : list (Drivers.result string)) : Device :=
  {| respond := fun lg _ =>
       nth (length (List.filter (fun a => match a with Visa _ => true | _ => false end) lg))
         script (Drivers.Err (Drivers.timeouterror visa_message)) |}.

Definition idle : bus := {| comLock := false; log := [] |}.

End Bus.

(** * Properties *)

(** ** The intermediate setpoint *)

Lemma Qltb_lt (x y : Q) : Qltb x y = true <-> (x < y)%Q.
Proof.
  unfold Qltb. rewrite negb_true_iff. split.
  - intros H. apply Qnot_le_lt. intros Hle. apply Qle_bool_iff in Hle. congruence.
  - intros H. destruct (Qle_bool y x) eqn:E; [|reflexivity].
    apply Qle_bool_iff in E. exfalso. apply (Qlt_not_le _ _ H E).
Qed.

Lemma Qltb_ge (x y : Q) : Qltb x y = false <-> (y <= x)%Q.
Proof.
  unfold Qltb. rewrite negb_false_iff. apply Qle_bool_iff.
Qed.

(** C5: the intermediate-stage setpoint of a scan step is
    [max(4.3, t - offset)] for every target [t] and every offset; the engine
    with offset 5 scanning the targets 10 and 3 commands 5 and 4.3. *)
Theorem scan_T_intermediate_setpoint :
  (forall (self : Sequence_Thread) (t : Q),
      (temp_setpoint_VTI self t == Qmax 4.3 (t - temp_VTI_offset self))%Q)
  /\ (let '(_, s) := running (sim_rig 0 0 4.2) (engine [scan_entry [10%Q; 3%Q]] 5) 0 s0 in
      vti_commands (trace s)) = [5%Q; 4.3%Q].
Proof.
  split.
  - intros self t. unfold temp_setpoint_VTI.
    destruct (Qltb (t - temp_VTI_offset self) 4.3) eqn:E.
    + apply Qltb_lt in E. symmetry. apply Q.max_l. apply Qlt_le_weak, E.
    + apply Qltb_ge in E. symmetry. apply Q.max_r, E.
  - vm_compute. reflexivity.
Qed.

(** ** The convergence wait *)

Lemma wait_loop_converged (w : World) (fuel : nat) (target threshold Temp_now : Q) (s : state) :
  (Qabs (Temp_now - target) <= threshold)%Q ->
  wait_loop w fuel target threshold Temp_now s = (Returned tt, s).
Proof.
  intros H. apply Qle_bool_iff in H.
  destruct fuel; cbn [wait_loop]; unfold Qgtb, Qltb; rewrite H; reflexivity.
Qed.

(** C6: when [stop()] has not run (the flag is read at time [now s]) and
    the first reading of the sensor (one action later) is within the
    threshold of the target, [wait_for_Temp] returns at once, whatever the
    fuel: it adds no event to the trace, hence no sleep. *)
Theorem wait_for_Temp_converged_at_once
  (w : World) (fuel : nat) (target threshold : Q) (s : state) :
  isRunning w (now s) = true ->
  (Qabs (Sensor_1_K w (S (now s)) - target) <= threshold)%Q ->
  exists s',
    wait_for_Temp w fuel (VNum target) threshold s = (Returned tt, s')
    /\ trace s' = trace s
    /\ List.filter is_sleep (trace s') = List.filter is_sleep (trace s).
Proof.
  intros Hrun Hnear.
  exists (tick [] (tick [] s)).
  assert (Htr : trace (tick [] (tick [] s)) = trace s).
  { simpl. now rewrite !app_nil_r. }
  split; [|split; [exact Htr | now rewrite Htr]].
  unfold wait_for_Temp, bind, read_isRunning, read_Sensor_1_K, as_num, ret.
  rewrite Hrun. simpl.
  now apply wait_loop_converged.
Qed.

Lemma wait_for_Temp_converged_at_once_witness :
  isRunning (sim_rig 0 0 4.305) (now s0) = true
  /\ (Qabs (Sensor_1_K (sim_rig 0 0 4.305) (S (now s0)) - 4.3) <= 0.01)%Q
  /\ exists s',
       wait_for_Temp (sim_rig 0 0 4.305) 0 (VNum 4.3) 0.01 s0 = (Returned tt, s')
       /\ trace s' = trace s0
       /\ List.filter is_sleep (trace s') = List.filter is_sleep (trace s0).
Proof.
  split; [reflexivity|]. split; [vm_compute; discriminate|].
  apply (wait_for_Temp_converged_at_once (sim_rig 0 0 4.305) 0 4.3 0.01 s0).
  - reflexivity.
  - vm_compute. discriminate.
Defined.

(** ** Steps of an unknown kind *)








(** ** Clearing the serial buffers *)

(** C8: when the read inside [clear_buffers] raises [e], the error is
    swallowed exactly when [e] is a [VisaIOError] whose [args] equal those
    of [VisaIOError(-1073807339)]; every other error is raised to the
    caller. *)
Theorem clear_buffers_swallows_only_timeout
  (visa_message : Z -> string) (resource : Type)
  (visa_read : resource -> Drivers.result string * resource)
  (r r' : resource) (e : Drivers.exception) :
  visa_read r = (Drivers.Err e, r') ->
  (Drivers.clear_buffers visa_message resource visa_read r = (Drivers.Ok tt, r')
   <-> (Drivers.exc_type e = Drivers.VisaIOError
        /\ Drivers.args e = Drivers.args (Drivers.timeouterror visa_message)))
  /\ (~ (Drivers.exc_type e = Drivers.VisaIOError
         /\ Drivers.args e = Drivers.args (Drivers.timeouterror visa_message)) ->
      Drivers.clear_buffers visa_message resource visa_read r = (Drivers.Err e, r')).
Proof.
  intros Hread.
  unfold Drivers.clear_buffers, Drivers.read. rewrite Hread.
  unfold Drivers.isinstance.
  change (Drivers.exc_type (Drivers.timeouterror visa_message)) with Drivers.VisaIOError.
  destruct (decide (Drivers.exc_type e = Drivers.VisaIOError)) as [Hc|Hc];
    destruct (decide (Drivers.args e
                      = Drivers.args (Drivers.timeouterror visa_message))) as [Ha|Ha];
    cbn [andb]; (split; [split|]).
  - intros _. split; assumption.
  - reflexivity.
  - intros Hn. exfalso. apply Hn. split; assumption.
  - discriminate.
  - intros [_ H]. contradiction.
  - reflexivity.
  - discriminate.
  - intros [H _]. contradiction.
  - reflexivity.
  - discriminate.
  - intros [H _]. contradiction.
  - reflexivity.
Qed.

Lemma clear_buffers_swallows_only_timeout_witness :
  let e := Drivers.new_VisaIOError sample_message (-1073807342)%Z in
  scripted_read [Drivers.Err e] = (Drivers.Err e, [])
  /\ (Drivers.clear_buffers sample_message _ scripted_read [Drivers.Err e]
      = (Drivers.Ok tt, [])
      <-> (Drivers.exc_type e = Drivers.VisaIOError
           /\ Drivers.args e = Drivers.args (Drivers.timeouterror sample_message)))
  /\ (~ (Drivers.exc_type e = Drivers.VisaIOError
         /\ Drivers.args e = Drivers.args (Drivers.timeouterror sample_message)) ->
      Drivers.clear_buffers sample_message _ scripted_read [Drivers.Err e]
      = (Drivers.Err e, [])).
Proof.
  intros e. split; [reflexivity|].
  apply (clear_buffers_swallows_only_timeout sample_message _ scripted_read
           [Drivers.Err e] [] e).
  reflexivity.
Defined.

(** ** What a computation can add to the trace *)

Section Adds.

Variable w : World.
Variable P : event -> Prop.

Lemma adds_ret {A} (a : A) : adds P (ret a).
Proof.
  intros s r s' H. inversion H; subst. exists []. now rewrite app_nil_r.
Qed.

Lemma adds_raise {A} (e : exn) : adds P (@raise A e).
Proof.
  intros s r s' H. inversion H; subst. exists []. now rewrite app_nil_r.
Qed.

Lemma adds_diverge {A} : adds P (@diverge A).
Proof.
  intros s r s' H. inversion H; subst. exists []. now rewrite app_nil_r.
Qed.

Lemma adds_bind {A B} (m : M A) (k : A -> M B) :
  adds P m -> (forall a, adds P (k a)) -> adds P (bind m k).
Proof.
  intros Hm Hk s r s' H. unfold bind in H.
  destruct (m s) as [[a|e|] s1] eqn:E; destruct (Hm _ _ _ E) as [ev1 [T1 F1]].
  - destruct (Hk a _ _ _ H) as [ev2 [T2 F2]].
    exists (ev1 ++ ev2). split.
    + now rewrite T2, T1, app_assoc.
    + apply Forall_app; split; assumption.
  - inversion H; subst. eauto.
  - inversion H; subst. eauto.
Qed.

Lemma adds_emit (e : event) : P e -> adds P (emit e).
Proof.
  intros He s r s' H. inversion H; subst. exists [e]. split; [reflexivity|].
  constructor; [assumption | constructor].
Qed.

Lemma adds_read_isRunning : adds P (read_isRunning w).
Proof.
  intros s r s' H. inversion H; subst. exists []. split; [reflexivity | constructor].
Qed.

Lemma adds_read_Sensor_1_K : adds P (read_Sensor_1_K w).
Proof.
  intros s r s' H. inversion H; subst. exists []. split; [reflexivity | constructor].
Qed.

Lemma adds_call_thread (th : string) (c : call) :
  P (EvCall th c) -> adds P (call_thread w th c).
Proof.
  intros He s r s' H. inversion H; subst. exists [EvCall th c].
  split; [reflexivity|]. constructor; [assumption | constructor].
Qed.

Lemma adds_loopcontrol_threads (b : bool) :
  P (EvLoopcontrol b) -> adds P (loopcontrol_threads w b).
Proof.
  intros He s r s' H. inversion H; subst. exists [EvLoopcontrol b].
  split; [reflexivity|]. constructor; [assumption | constructor].
Qed.

Lemma adds_sleep (d : Q) : P (EvSleep d) -> adds P (sleep d).
Proof.
  intros He. unfold sleep.
  destruct (Qle_bool sleep_min d && Qle_bool d sleep_max); [|apply adds_raise].
  destruct (Qle_bool 0 d).
  - now apply adds_emit.
  - apply adds_raise.
Qed.

Lemma adds_getitem (d : gmap string pyval) (k : string) : adds P (getitem d k).
Proof. unfold getitem. destruct (d !! k); [apply adds_ret | apply adds_raise]. Qed.

Lemma adds_as_num (v : pyval) : adds P (as_num v).
Proof. destruct v; simpl; first [apply adds_ret | apply adds_raise]. Qed.

Lemma adds_iterate (v : pyval) : adds P (iterate v).
Proof.
  destruct v as [|q|s|l]; simpl; try apply adds_raise; try apply adds_ret.
  destruct s; apply adds_ret.
Qed.

Lemma adds_getthread (ts : gset string) (name : option string) :
  adds P (getthread ts name).
Proof.
  destruct name as [n|]; simpl; [|apply adds_raise].
  destruct (decide (n ∈ ts)); [apply adds_ret | apply adds_raise].
Qed.

Lemma adds_for_each {A} (l : list A) (body : A -> M unit) :
  (forall x, adds P (body x)) -> adds P (for_each l body).
Proof.
  intros Hb. induction l as [|x l IH]; simpl.
  - apply adds_ret.
  - apply adds_bind; [apply Hb | intros _; exact IH].
Qed.

Lemma adds_for_acc {A B} (l : list A) (body : B -> A -> M B) :
  (forall b x, adds P (body b x)) -> forall b, adds P (for_acc l body b).
Proof.
  intros Hb. induction l as [|x l IH]; intros b; simpl.
  - apply adds_ret.
  - apply adds_bind; [apply Hb | intros b'; apply IH].
Qed.

End Adds.

Create HintDb adds.
#[local] Hint Resolve adds_ret adds_raise adds_diverge adds_read_isRunning
  adds_read_Sensor_1_K adds_getitem adds_as_num adds_iterate adds_getthread : adds.

(** Split a computation along its binds, leaving the events to check. *)
Ltac adds_step :=
  first
    [ apply adds_bind; [|intro]
    | apply adds_emit
    | apply adds_call_thread
    | apply adds_loopcontrol_threads
    | apply adds_sleep
    | solve [auto with adds] ].

(** The steps of a sequence only call instruments and sleep. *)
Section StepsAdd.

Variable w : World.
Variable P : event -> Prop.
Hypothesis P_call : forall th c, P (EvCall th c).
Hypothesis P_sleep : forall d, P (EvSleep d).

Lemma adds_wait_loop (fuel : nat) (target threshold : Q) :
  forall Temp_now, adds P (wait_loop w fuel target threshold Temp_now).
Proof.
  induction fuel as [|fuel IH]; intros Temp_now; cbn [wait_loop];
    destruct (Qgtb (Qabs (Temp_now - target)) threshold); auto with adds.
  repeat adds_step; auto.
Qed.

Lemma adds_wait_for_Temp (fuel : nat) (Temp_target : pyval) (threshold : Q) :
  adds P (wait_for_Temp w fuel Temp_target threshold).
Proof.
  unfold wait_for_Temp. adds_step; [adds_step|].
  destruct (negb a); [adds_step|].
  repeat adds_step. apply adds_wait_loop.
Qed.

Lemma adds_wait_for_Field (Field : pyval) : adds P (wait_for_Field w Field).
Proof.
  unfold wait_for_Field. adds_step; [adds_step|].
  destruct (negb a); repeat adds_step; auto.
Qed.

Lemma adds_scan_T_step (self : Sequence_Thread) (x : pyval) :
  adds P (scan_T_step w self x).
Proof.
  unfold scan_T_step, check_Temp_in_Scan. repeat adds_step; auto.
Qed.

Lemma adds_run_entry (self : Sequence_Thread) (fuel : nat) (entry : gmap string pyval) :
  adds P (run_entry w self fuel entry).
Proof.
  unfold run_entry. adds_step; [adds_step|]. adds_step.
  - destruct (is_str a "scan_T"); [|adds_step].
    repeat adds_step. apply adds_for_each. apply adds_scan_T_step.
  - adds_step; [adds_step|].
    destruct (is_str a1 "Wait"); [|adds_step].
    adds_step; [adds_step|]. adds_step; [apply adds_wait_for_Temp|].
    adds_step; [adds_step|]. adds_step; [apply adds_wait_for_Field|].
    repeat adds_step; auto.
Qed.

Lemma adds_run_entries (self : Sequence_Thread) (fuel : nat)
  (l : list (gmap string pyval)) :
  adds P (run_entries w self fuel l).
Proof. apply adds_for_each. intros e. apply adds_run_entry. Qed.

End StepsAdd.

(** ** The setpoint controls around a run *)

Lemma setpoints_setEnabled_run (b : bool) (s : state) :
  exists s', setpoints_setEnabled b s = (Returned tt, s')
             /\ trace s' = trace s ++ setpoints_events b.
Proof.
  eexists. split; [reflexivity|]. simpl. now rewrite <- !app_assoc.
Qed.

(** C4: a run that ends, whether it completes, is aborted or is cut short by
    an exception of a step, adds to the trace the four [setEnabled(False)]
    calls first and the four [setEnabled(True)] calls last, and no other
    call to [setEnabled] in between: each control is disabled once at the
    start and enabled once at the end. *)
Theorem running_brackets_controls
  (w : World) (self : Sequence_Thread) (fuel : nat) (s : state) :
  fst (running w self fuel s) <> Diverged ->
  exists mid,
    trace (snd (running w self fuel s))
    = trace s ++ setpoints_events false ++ mid ++ setpoints_events true
    /\ Forall not_setEnabled mid.
Proof.
  intros Hend.
  assert (Hbody := adds_run_entries w not_setEnabled
                     (fun _ _ => eq_refl) (fun _ => eq_refl) self fuel (sequence self)).
  unfold running, try_finally, try_except_Break, bind in *.
  destruct (setpoints_setEnabled_run false s) as [s1 [E1 T1]]. rewrite E1 in *.
  destruct (run_entries w self fuel (sequence self) s1) as [[u|e|] s2] eqn:E2;
    destruct (Hbody _ _ _ E2) as [evs [T2 F2]].
  - cbn [ret] in *.
    destruct (setpoints_setEnabled_run true s2) as [s3 [E3 T3]]. rewrite E3 in *.
    exists evs. split; [|assumption]. cbn [snd].
    now rewrite T3, T2, T1, <- !app_assoc.
  - destruct e;
      try (destruct (setpoints_setEnabled_run true s2) as [s3 [E3 T3]]; rewrite E3 in *;
           exists evs; split; [|assumption]; cbn [snd];
           now rewrite T3, T2, T1, <- !app_assoc).
    cbn [emit ret] in *.
    destruct (setpoints_setEnabled_run true (tick [EvAborted] s2)) as [s3 [E3 T3]].
    rewrite E3 in *.
    exists (evs ++ [EvAborted]). split.
    + cbn [snd]. rewrite T3. cbn [tick trace]. now rewrite T2, T1, <- !app_assoc.
    + apply Forall_app. split; [assumption|]. constructor; [reflexivity | constructor].
  - exfalso. apply Hend. reflexivity.
Qed.

Lemma running_brackets_controls_witness :
  fst (running (stopped_rig 0 4.2) (engine [scan_entry [10%Q]; wait_entry 4.2 0 1] 5) 0 s0)
    <> Diverged
  /\ exists mid,
      trace (snd (running (stopped_rig 0 4.2)
                    (engine [scan_entry [10%Q]; wait_entry 4.2 0 1] 5) 0 s0))
      = trace s0 ++ setpoints_events false ++ mid ++ setpoints_events true
      /\ Forall not_setEnabled mid.
Proof.
  split; [vm_compute; discriminate|].
  apply (running_brackets_controls (stopped_rig 0 4.2)
           (engine [scan_entry [10%Q]; wait_entry 4.2 0 1] 5) 0 s0).
  vm_compute. discriminate.
Defined.

(** ** The currents commanded by a measurement *)

Section Commands.

Variable w : World.

Lemma commands_eq {A} (cs cs' : list Q) (m : M A) :
  commands cs m -> cs = cs' -> commands cs' m.
Proof. intros H E. now subst. Qed.

Lemma commands_ret {A} (a : A) : commands [] (ret a).
Proof. intros s a' s' H. inversion H; subst. now rewrite app_nil_r. Qed.

Lemma commands_raise {A} (e : exn) (cs : list Q) : commands cs (@raise A e).
Proof. intros s a s' H. discriminate. Qed.

Lemma commands_bind {A B} (c1 c2 : list Q) (m : M A) (k : A -> M B) :
  commands c1 m -> (forall a, commands c2 (k a)) -> commands (c1 ++ c2) (bind m k).
Proof.
  intros Hm Hk s b s' H. unfold bind in H.
  destruct (m s) as [[a|e|] s1] eqn:E; try discriminate.
  rewrite (Hk a _ _ _ H), (Hm _ _ _ E). now rewrite app_assoc.
Qed.

Lemma commands_call_thread (th : string) (c : call) :
  commands (current_commands [EvCall th c]) (call_thread w th c).
Proof.
  intros s a s' H. inversion H; subst. cbn [tick trace].
  unfold current_commands. now rewrite flat_map_app.
Qed.

Lemma commands_getto (th : string) (q : Q) :
  commands [q] (call_thread w th (getto_setCurrent_A q)).
Proof. exact (commands_call_thread th (getto_setCurrent_A q)). Qed.

Lemma commands_setCurrent_A (th : string) (q : Q) :
  commands [q] (call_thread w th (setCurrent_A q)).
Proof. exact (commands_call_thread th (setCurrent_A q)). Qed.

Lemma commands_read_Voltage (th : string) :
  commands [] (call_thread w th read_Voltage).
Proof. exact (commands_call_thread th read_Voltage). Qed.

Lemma commands_read_Temperatures (th : string) :
  commands [] (call_thread w th read_Temperatures).
Proof. exact (commands_call_thread th read_Temperatures). Qed.

Lemma commands_bind_ret {A B} (cs : list Q) (a : A) (k : A -> M B) :
  commands cs (k a) -> commands cs (bind (ret a) k).
Proof. intros H s b s' E. exact (H s b s' E). Qed.

Lemma commands_loopcontrol_threads (b : bool) :
  commands [] (loopcontrol_threads w b).
Proof.
  intros s a s' H. inversion H; subst. cbn [tick trace].
  unfold current_commands. now rewrite flat_map_app.
Qed.

Lemma commands_getthread (ts : gset string) (name : option string) :
  commands [] (getthread ts name).
Proof.
  destruct name as [n|]; simpl; [|apply commands_raise].
  destruct (decide (n ∈ ts)); [apply commands_ret | apply commands_raise].
Qed.

Lemma commands_divide (x y : Q) : commands [] (divide x y).
Proof.
  unfold divide. destruct (Qeq_bool y 0); [apply commands_raise | apply commands_ret].
Qed.

Lemma commands_for_acc {A B} (cs : list Q) (l : list A) (body : B -> A -> M B) :
  (forall b x, commands cs (body b x)) ->
  forall b, commands (concat (repeat cs (length l))) (for_acc l body b).
Proof.
  intros Hb. induction l as [|x l IH]; intros b; simpl.
  - apply commands_ret.
  - apply commands_bind; [apply Hb | intros b'; apply IH].
Qed.

Ltac commands_step :=
  lazymatch goal with
  | |- commands _ (bind (ret _) _) => apply commands_bind_ret
  | |- commands _ (bind _ _) => apply commands_bind; [|intro]
  | |- commands _ (ret _) => apply commands_ret
  | |- commands _ (getthread _ _) => apply commands_getthread
  | |- commands _ (divide _ _) => apply commands_divide
  | |- commands _ (loopcontrol_threads _ _) => apply commands_loopcontrol_threads
  | |- commands _ (call_thread _ _ (getto_setCurrent_A _)) => apply commands_getto
  | |- commands _ (call_thread _ _ (setCurrent_A _)) => apply commands_setCurrent_A
  | |- commands _ (call_thread _ _ read_Voltage) => apply commands_read_Voltage
  | |- commands _ (call_thread _ _ read_Temperatures) => apply commands_read_Temperatures
  end.

Variable conf : Conf.
Variable i : Q.
Hypothesis current_set : current_applied conf = Some i.

Lemma commands_current_times (cf : Q) : commands [] (current_times conf cf).
Proof. unfold current_times. rewrite current_set. apply commands_ret. Qed.

Lemma commands_measure_once (rs : list Q) (cf : Q) :
  commands [(i * cf)%Q; (i * cf)%Q] (measure_once w conf rs cf).
Proof.
  unfold measure_once, current_times. rewrite current_set. cbv zeta.
  eapply commands_eq.
  - repeat commands_step.
  - reflexivity.
Qed.

Lemma commands_measure_resistance (np_sqrt : Q -> Q) :
  commands (concat (repeat (reversal i) (n_measurements conf)))
    (measure_resistance w np_sqrt conf).
Proof.
  unfold measure_resistance.
  eapply commands_eq.
  - apply commands_bind; [apply commands_loopcontrol_threads | intro].
    apply commands_bind; [apply commands_getthread | intro].
    apply commands_bind; [apply commands_read_Temperatures | intro].
    apply commands_bind.
    + apply (commands_for_acc (reversal i)). intros rs _.
      eapply commands_eq.
      * apply commands_bind; [apply commands_measure_once | intro].
        apply commands_bind; [apply commands_measure_once | intro].
        apply commands_ret.
      * reflexivity.
    + intro. repeat commands_step.
  - simpl. rewrite length_seq. now rewrite !app_nil_r.
Qed.

End Commands.

Lemma last_app_cons (pre l : list Q) (x d : Q) :
  List.last (pre ++ x :: l) d = List.last (x :: l) d.
Proof.
  induction pre as [|y pre IH]; [reflexivity|].
  rewrite <- IH. simpl.
  destruct (pre ++ x :: l) eqn:E; [destruct pre; discriminate | reflexivity].
Qed.

Lemma last_concat_repeat (i : Q) (n : nat) (pre : list Q) :
  (1 <= n)%nat ->
  List.last (pre ++ concat (repeat (reversal i) n)) 0%Q = (i * -1)%Q.
Proof.
  intros Hn. destruct n as [|n]; [lia|]. clear Hn.
  revert pre. induction n as [|n IH]; intros pre.
  - simpl. now rewrite last_app_cons.
  - change (concat (repeat (reversal i) (S (S n))))
      with (reversal i ++ concat (repeat (reversal i) (S n))).
    rewrite app_assoc. apply IH.
Qed.

(** C9: when the current is set and at least one sample is asked for, a
    measurement that returns has commanded the currents
    [i, i, -i, -i] once per sample and nothing else: the last command is
    [-i], and no command brings the source back to zero afterwards. *)
Theorem last_current_command_is_negative
  (w : World) (np_sqrt : Q -> Q) (conf : Conf) (i : Q) (s : state) :
  current_applied conf = Some i ->
  (1 <= n_measurements conf)%nat ->
  returns (fst (measure_resistance w np_sqrt conf s)) = true ->
  let cmds := current_commands (trace (snd (measure_resistance w np_sqrt conf s))) in
  cmds = current_commands (trace s)
         ++ concat (repeat (reversal i) (n_measurements conf))
  /\ List.last cmds 0%Q = (i * -1)%Q
  /\ (List.last cmds 0 == - i)%Q.
Proof.
  intros Hi Hn Hret cmds.
  destruct (measure_resistance w np_sqrt conf s) as [[d|e|] s'] eqn:E; try discriminate.
  assert (Hc : cmds = current_commands (trace s)
                      ++ concat (repeat (reversal i) (n_measurements conf))).
  { unfold cmds. cbn [snd].
    exact (commands_measure_resistance w conf i Hi np_sqrt _ _ _ E). }
  split; [exact Hc|].
  assert (Hl : List.last cmds 0%Q = (i * -1)%Q).
  { rewrite Hc. now apply last_concat_repeat. }
  split; [exact Hl|]. rewrite Hl. ring.
Qed.

Lemma last_current_command_is_negative_witness :
  current_applied (oneshot_conf (Some 0.001%Q) 2) = Some 0.001%Q
  /\ (1 <= n_measurements (oneshot_conf (Some 0.001%Q) 2))%nat
  /\ returns (fst (measure_resistance (sim_rig 100 0.001 4.2) (fun x => x)
                     (oneshot_conf (Some 0.001%Q) 2) s0)) = true
  /\ let cmds := current_commands
                   (trace (snd (measure_resistance (sim_rig 100 0.001 4.2) (fun x => x)
                                  (oneshot_conf (Some 0.001%Q) 2) s0))) in
     cmds = current_commands (trace s0)
            ++ concat (repeat (reversal 0.001) (n_measurements (oneshot_conf (Some 0.001%Q) 2)))
     /\ List.last cmds 0%Q = (0.001 * -1)%Q
     /\ (List.last cmds 0 == - 0.001)%Q.
Proof.
  split; [reflexivity|]. split; [simpl; lia|]. split; [vm_compute; reflexivity|].
  apply (last_current_command_is_negative (sim_rig 100 0.001 4.2) (fun x => x)
           (oneshot_conf (Some 0.001%Q) 2) 0.001%Q s0).
  - reflexivity.
  - simpl; lia.
  - vm_compute; reflexivity.
Defined.

(** ** A measurement without an applied current *)

Lemma fails_raise {A} (e : exn) : fails (@raise A e).
Proof. intros s. reflexivity. Qed.

Lemma fails_bind_l {A B} (m : M A) (k : A -> M B) : fails m -> fails (bind m k).
Proof.
  intros H s. unfold bind. specialize (H s).
  destruct (m s) as [[a|e|] s1]; [discriminate | reflexivity | reflexivity].
Qed.

Lemma fails_bind_r {A B} (m : M A) (k : A -> M B) :
  (forall a, fails (k a)) -> fails (bind m k).
Proof.
  intros H s. unfold bind.
  destruct (m s) as [[a|e|] s1]; [apply H | reflexivity | reflexivity].
Qed.

Lemma adds_bind_raise {A B} (P : event -> Prop) (e : exn) (k : A -> M B) :
  adds P (bind (raise e) k).
Proof. intros s r s' H. exact (adds_raise P e s r s' H). Qed.

Lemma not_current_commands (evs : list event) :
  Forall not_current evs -> current_commands evs = [].
Proof.
  induction 1 as [|e evs He _ IH]; [reflexivity|].
  unfold not_current, current_commands in *. cbn [flat_map] in *.
  rewrite app_nil_r in He. now rewrite He, IH.
Qed.

Section NoCurrent.

Variable w : World.
Variable np_sqrt : Q -> Q.
Variable conf : Conf.
Hypothesis current_unset : current_applied conf = None.

Lemma measure_once_fails (rs : list Q) (cf : Q) : fails (measure_once w conf rs cf).
Proof.
  unfold measure_once, current_times. rewrite current_unset.
  apply fails_bind_r. intros th. apply fails_bind_l. apply fails_raise.
Qed.

Lemma measure_once_adds (rs : list Q) (cf : Q) :
  adds not_current (measure_once w conf rs cf).
Proof.
  unfold measure_once, current_times. rewrite current_unset.
  apply adds_bind; [apply adds_getthread | intros th; apply adds_bind_raise].
Qed.

Lemma measure_resistance_fails :
  (1 <= n_measurements conf)%nat -> fails (measure_resistance w np_sqrt conf).
Proof.
  intros Hn. unfold measure_resistance.
  destruct (n_measurements conf) as [|n]; [lia|].
  apply fails_bind_r. intros _. apply fails_bind_r. intros th.
  apply fails_bind_r. intros t0. apply fails_bind_l.
  cbn [seq for_acc]. apply fails_bind_l. apply fails_bind_l.
  apply measure_once_fails.
Qed.

Lemma measure_resistance_adds_no_current :
  adds not_current (measure_resistance w np_sqrt conf).
Proof.
  unfold measure_resistance.
  apply adds_bind; [now apply adds_loopcontrol_threads | intros _].
  apply adds_bind; [apply adds_getthread | intros th].
  apply adds_bind; [now apply adds_call_thread | intros t0].
  apply adds_bind.
  - apply adds_for_acc. intros rs _.
    apply adds_for_acc. intros rs' cf. apply measure_once_adds.
  - intros rs.
    apply adds_bind; [apply adds_getthread | intros th'].
    apply adds_bind; [now apply adds_call_thread | intros t1].
    apply adds_bind; [now apply adds_loopcontrol_threads | intros _].
    apply adds_ret.
Qed.

End NoCurrent.

(** After the pause, a measurement only calls instruments and the loop
    control. *)
Lemma measure_resistance_rest_adds
  (w : World) (np_sqrt : Q -> Q) (conf : Conf) (k : unit -> M Data) :
  measure_resistance w np_sqrt conf = bind (loopcontrol_threads w false) k ->
  (forall u, adds (fun _ => True) (k u)) ->
  forall s, exists evs,
    trace (snd (measure_resistance w np_sqrt conf s))
    = trace s ++ EvLoopcontrol false :: evs.
Proof.
  intros Hm Hk s. rewrite Hm. unfold bind, loopcontrol_threads.
  destruct (loopcontrol w (trace s) false) as [u|e|].
  - destruct (k u (tick [EvLoopcontrol false] s)) as [r s'] eqn:E.
    destruct (Hk u _ _ _ E) as [evs [T _]].
    exists evs. cbn [snd]. rewrite T. cbn [tick trace]. now rewrite <- app_assoc.
  - exists []. reflexivity.
  - exists []. reflexivity.
Qed.

Lemma adds_current_times (P : event -> Prop) (conf : Conf) (cf : Q) :
  adds P (current_times conf cf).
Proof.
  unfold current_times. destruct (current_applied conf); [apply adds_ret | apply adds_raise].
Qed.

Lemma adds_divide (P : event -> Prop) (x y : Q) : adds P (divide x y).
Proof.
  unfold divide. destruct (Qeq_bool y 0); [apply adds_raise | apply adds_ret].
Qed.

Lemma adds_measure_once (w : World) (conf : Conf) (rs : list Q) (cf : Q) :
  adds (fun _ => True) (measure_once w conf rs cf).
Proof.
  unfold measure_once.
  repeat first
    [ apply adds_bind; [|intro]
    | apply adds_getthread | apply adds_current_times | apply adds_divide
    | apply adds_ret | now apply adds_call_thread ].
Qed.

(** The first thing a measurement does is pause the control loops. *)
Lemma measure_resistance_pauses_first
  (w : World) (np_sqrt : Q -> Q) (conf : Conf) (s : state) :
  exists evs,
    trace (snd (measure_resistance w np_sqrt conf s))
    = trace s ++ EvLoopcontrol false :: evs.
Proof.
  eapply measure_resistance_rest_adds; [reflexivity|].
  intros u.
  apply adds_bind; [apply adds_getthread | intros th].
  apply adds_bind; [now apply adds_call_thread | intros t0].
  apply adds_bind.
  - apply adds_for_acc. intros rs _.
    apply adds_for_acc. intros rs' cf. apply adds_measure_once.
  - intros rs.
    apply adds_bind; [apply adds_getthread | intros th'].
    apply adds_bind; [now apply adds_call_thread | intros t1].
    apply adds_bind; [now apply adds_loopcontrol_threads | intros _].
    apply adds_ret.
Qed.

(** C3, as the code has it: with [current_applied] unset and at least one
    sample asked for, [measure_resistance] never returns a result and never
    commands a current; but nothing is checked up front: the failure comes
    only after the control loops have been paused. *)
Theorem measure_resistance_without_current
  (w : World) (np_sqrt : Q -> Q) (conf : Conf) (s : state) :
  current_applied conf = None ->
  (1 <= n_measurements conf)%nat ->
  returns (fst (measure_resistance w np_sqrt conf s)) = false
  /\ current_commands (trace (snd (measure_resistance w np_sqrt conf s)))
     = current_commands (trace s)
  /\ exists evs,
       trace (snd (measure_resistance w np_sqrt conf s))
       = trace s ++ EvLoopcontrol false :: evs.
Proof.
  intros Hi Hn. split; [|split].
  - now apply measure_resistance_fails.
  - destruct (measure_resistance w np_sqrt conf s) as [r s'] eqn:E.
    destruct (measure_resistance_adds_no_current w np_sqrt conf Hi _ _ _ E)
      as [evs [T F]].
    cbn [snd]. rewrite T. unfold current_commands at 1. rewrite flat_map_app.
    fold (current_commands evs). fold (current_commands (trace s)).
    rewrite (not_current_commands evs F). now rewrite app_nil_r.
  - apply measure_resistance_pauses_first.
Qed.

Lemma measure_resistance_without_current_witness :
  current_applied (oneshot_conf None 10) = None
  /\ (1 <= n_measurements (oneshot_conf None 10))%nat
  /\ returns (fst (measure_resistance (sim_rig 100 0.001 4.2) (fun x => x)
                     (oneshot_conf None 10) s0)) = false
  /\ current_commands (trace (snd (measure_resistance (sim_rig 100 0.001 4.2) (fun x => x)
                                     (oneshot_conf None 10) s0)))
     = current_commands (trace s0)
  /\ exists evs,
       trace (snd (measure_resistance (sim_rig 100 0.001 4.2) (fun x => x)
                     (oneshot_conf None 10) s0))
       = trace s0 ++ EvLoopcontrol false :: evs.
Proof.
  split; [reflexivity|]. split; [simpl; lia|].
  apply (measure_resistance_without_current (sim_rig 100 0.001 4.2) (fun x => x)
           (oneshot_conf None 10) s0).
  - reflexivity.
  - simpl; lia.
Defined.

(** C3, as stated, fails: on the simulated rig the one-shot configuration
    with [current_applied = None] raises [TypeError] only after the control
    loops were paused and the temperature was read. *)
Lemma missing_current_fails_late :
  fst (measure_resistance (sim_rig 100 0.001 4.2) (fun x => x) (oneshot_conf None 10) s0)
  = Raised TypeError
  /\ trace (snd (measure_resistance (sim_rig 100 0.001 4.2) (fun x => x)
                   (oneshot_conf None 10) s0))
     = [EvLoopcontrol false; EvCall "control_LakeShore350" read_Temperatures].
Proof. split; vm_compute; reflexivity. Qed.

(** C7, on the code: when the voltmeter fails during the first sample, the
    exception leaves [measure_resistance] with the control loops paused:
    [loopcontrol_threads(..., True)] is never reached. *)
Theorem control_loop_left_paused_on_fault :
  forall np_sqrt : Q -> Q,
    fst (measure_resistance broken_voltmeter np_sqrt (oneshot_conf (Some 0.001%Q) 10) s0)
    = Raised (DeviceFault (-1073807339))
    /\ trace (snd (measure_resistance broken_voltmeter np_sqrt
                     (oneshot_conf (Some 0.001%Q) 10) s0))
       = [EvLoopcontrol false;
          EvCall "control_LakeShore350" read_Temperatures;
          EvCall "control_Keithley" (getto_setCurrent_A (0.001 * 1));
          EvCall "control_Keithley" (setCurrent_A (0.001 * 1));
          EvCall "control_Nano" read_Voltage]
    /\ ~ In (EvLoopcontrol true)
           (trace (snd (measure_resistance broken_voltmeter np_sqrt
                          (oneshot_conf (Some 0.001%Q) 10) s0))).
Proof.
  intros np_sqrt.
  assert (E : measure_resistance broken_voltmeter np_sqrt (oneshot_conf (Some 0.001%Q) 10) s0
              = (Raised (DeviceFault (-1073807339)),
                 {| now := 5;
                    trace := [EvLoopcontrol false;
                              EvCall "control_LakeShore350" read_Temperatures;
                              EvCall "control_Keithley" (getto_setCurrent_A (0.001 * 1));
                              EvCall "control_Keithley" (setCurrent_A (0.001 * 1));
                              EvCall "control_Nano" read_Voltage] |})).
  { reflexivity. }
  rewrite E. cbn [fst snd trace]. split; [reflexivity|]. split; [reflexivity|].
  intros H. repeat (destruct H as [H|H]; [discriminate|]). exact H.
Qed.

(** ** Stopping a run *)

Lemma for_each_app {A} (l1 l2 : list A) (body : A -> M unit) (s : state) :
  for_each (l1 ++ l2) body s = bind (for_each l1 body) (fun _ => for_each l2 body) s.
Proof.
  revert s. induction l1 as [|x l1 IH]; intros s; [reflexivity|].
  cbn [app for_each]. unfold bind.
  destruct (body x s) as [[u|e|] s1]; [|reflexivity|reflexivity].
  rewrite IH. reflexivity.
Qed.

Lemma isRunning_after_stop (w : World) (t0 t : nat) :
  stop_at w = Some t0 -> (t0 <= t)%nat -> isRunning w t = false.
Proof.
  intros Hs Hle. unfold isRunning. rewrite Hs. apply Nat.ltb_ge. exact Hle.
Qed.

Lemma wait_for_Temp_stopped (w : World) (fuel : nat) (T : pyval) (threshold : Q) (s : state) :
  isRunning w (now s) = false ->
  wait_for_Temp w fuel T threshold s = (Raised BreakCondition, tick [] s).
Proof.
  intros H. unfold wait_for_Temp, bind, read_isRunning. now rewrite H.
Qed.

Lemma wait_for_Field_stopped (w : World) (F : pyval) (s : state) :
  isRunning w (now s) = false ->
  wait_for_Field w F s = (Raised BreakCondition, tick [] s).
Proof.
  intros H. unfold wait_for_Field, bind, read_isRunning. now rewrite H.
Qed.

(** C2, as the code has it: the flag is read when [wait_for_Temp] and
    [wait_for_Field] are entered, and read as set it raises [BreakCondition]
    at once.  So when [stop()] has run by the time a ['Wait'] step begins,
    the run does nothing more than emit [sig_aborted] and enable the controls
    again, and returns ['Aborted!']: no instrument is called, nothing sleeps,
    no later step runs.  A scan step does not read the flag: it does the
    same whenever [stop()] runs. *)
Theorem stop_seen_when_wait_begins
  (w : World) (self : Sequence_Thread) (fuel : nat)
  (pre post : list (gmap string pyval)) (entry : gmap string pyval) (T : pyval)
  (s s1 : state) (t0 : nat) :
  stop_at w = Some t0 ->
  sequence self = pre ++ entry :: post ->
  entry !! "typ" = Some (VStr "Wait") ->
  entry !! "Temp" = Some T ->
  (setpoints_setEnabled false ;;; run_entries w self fuel pre) s = (Returned tt, s1) ->
  (t0 <= now s1)%nat ->
  (forall (T' F : pyval) (threshold : Q) (s' : state),
      isRunning w (now s') = false ->
      wait_for_Temp w fuel T' threshold s' = (Raised BreakCondition, tick [] s')
      /\ wait_for_Field w F s' = (Raised BreakCondition, tick [] s'))
  /\ (forall (o : option nat) (x : pyval) (s' : state),
        scan_T_step (with_stop w o) self x s' = scan_T_step w self x s')
  /\ fst (running w self fuel s) = Returned (Some "Aborted!")
  /\ trace (snd (running w self fuel s))
     = trace s1 ++ EvAborted :: setpoints_events true.
Proof.
  intros Hstop Hseq Htyp HT Hpre Hle.
  split.
  { intros T' F threshold s' H. split.
    - now apply wait_for_Temp_stopped.
    - now apply wait_for_Field_stopped. }
  split; [reflexivity|].
  assert (Hrun : isRunning w (now s1) = false)
    by now apply (isRunning_after_stop w t0).
  assert (Hentry : run_entry w self fuel entry s1 = (Raised BreakCondition, tick [] s1)).
  { unfold run_entry, bind, getitem. rewrite Htyp. cbn [ret].
    change (is_str (VStr "Wait") "scan_T") with false.
    change (is_str (VStr "Wait") "Wait") with true. cbn iota.
    rewrite HT. cbn [ret].
    now rewrite (wait_for_Temp_stopped w fuel T 0.01 s1 Hrun). }
  assert (Hbody : (setpoints_setEnabled false ;;;
                   run_entries w self fuel (sequence self) ;;; ret None) s
                  = (@Raised (option string) BreakCondition, tick [] s1)).
  { rewrite Hseq. unfold bind in *.
    destruct (setpoints_setEnabled false s) as [[u|e|] s']; try discriminate.
    unfold run_entries in *. rewrite for_each_app. unfold bind.
    destruct (for_each pre (run_entry w self fuel) s') as [[u'|e|] s''];
      inversion Hpre; subst.
    cbn [for_each]. unfold bind. now rewrite Hentry. }
  unfold running, try_finally, try_except_Break. rewrite Hbody.
  split; [reflexivity|].
  cbn. now rewrite app_nil_r, <- !app_assoc.
Qed.

Lemma stop_seen_when_wait_begins_witness :
  let w := stopped_rig 0 4.2 in
  let self := engine [scan_entry [10%Q]; wait_entry 4.2 0 1; scan_entry [20%Q]] 5 in
  let s1 := snd ((setpoints_setEnabled false ;;;
                  run_entries w self 0 [scan_entry [10%Q]]) s0) in
  (stop_at w = Some 0%nat
   /\ sequence self = [scan_entry [10%Q]] ++ wait_entry 4.2 0 1 :: [scan_entry [20%Q]]
   /\ wait_entry 4.2 0 1 !! "typ" = Some (VStr "Wait")
   /\ wait_entry 4.2 0 1 !! "Temp" = Some (VNum 4.2)
   /\ (setpoints_setEnabled false ;;; run_entries w self 0 [scan_entry [10%Q]]) s0
      = (Returned tt, s1)
   /\ (0 <= now s1)%nat)
  /\ (forall (T' F : pyval) (threshold : Q) (s' : state),
        isRunning w (now s') = false ->
        wait_for_Temp w 0 T' threshold s' = (Raised BreakCondition, tick [] s')
        /\ wait_for_Field w F s' = (Raised BreakCondition, tick [] s'))
  /\ (forall (o : option nat) (x : pyval) (s' : state),
        scan_T_step (with_stop w o) self x s' = scan_T_step w self x s')
  /\ fst (running w self 0 s0) = Returned (Some "Aborted!")
  /\ trace (snd (running w self 0 s0))
     = trace s1 ++ EvAborted :: setpoints_events true.
Proof.
  intros w self s1. split.
  { repeat split; try reflexivity; try (vm_compute; reflexivity). lia. }
  apply (stop_seen_when_wait_begins w self 0
           [scan_entry [10%Q]] [scan_entry [20%Q]] (wait_entry 4.2 0 1) (VNum 4.2)
           s0 s1 0).
  - reflexivity.
  - reflexivity.
  - reflexivity.
  - reflexivity.
  - vm_compute. reflexivity.
  - lia.
Defined.

(** C2, as stated, fails.  With [stop()] run before the worker starts, a
    scan step still sends its four setpoint commands and the run ends as
    completed, not aborted; and a [wait_for_Temp] that has passed its entry
    check keeps polling and sleeping after [stop()], here until the fuel
    is used up, without ever raising [BreakCondition]. *)
Lemma stop_not_seen_by_scan_or_poll :
  isRunning (stopped_rig 0 4.2) 0 = false
  /\ fst (running (stopped_rig 0 4.2) (engine [scan_entry [10%Q]] 5) 0 s0) = Returned None
  /\ List.filter is_hardware_write
       (trace (snd (running (stopped_rig 0 4.2) (engine [scan_entry [10%Q]] 5) 0 s0)))
     = [EvCall "control_ITC" (gettoset_Temperature 5);
        EvCall "control_ITC" setTemperature;
        EvCall "control_LakeShore350" (gettoset_Temp_K 10);
        EvCall "control_LakeShore350" setTemp_K]
  /\ isRunning (stopped_rig 1 300) 1 = false
  /\ fst (wait_for_Temp (stopped_rig 1 300) 5 (VNum 4) 0.01 s0) = Diverged
  /\ List.filter is_sleep (trace (snd (wait_for_Temp (stopped_rig 1 300) 5 (VNum 4) 0.01 s0)))
     = [EvSleep 0.1; EvSleep 0.1; EvSleep 0.1; EvSleep 0.1; EvSleep 0.1].
Proof. repeat split; vm_compute; reflexivity. Qed.

(** ** Current reversal *)

(** On the simulated rig every sample is [V / I] for the driven current. *)
Section Reversal.

Variables R V_off T i : Q.
Variable np_sqrt : Q -> Q.
Hypothesis i_nonzero : ~ (i == 0)%Q.

Lemma last_current_app (tr : list event) (th : string) (x d : Q) :
  last_current (tr ++ [EvCall th (setCurrent_A x)]) d = x.
Proof.
  revert d. induction tr as [|e tr IH]; intros d; [reflexivity|].
  destruct e as [| th' c | | |]; try destruct c; simpl; apply IH.
Qed.

Lemma getthread_oneshot (n : nat) (name : string) (s : state) :
  name ∈ threads (oneshot_conf (Some i) n) ->
  getthread (threads (oneshot_conf (Some i) n)) (Some name) s = (Returned name, s).
Proof.
  intros H. unfold getthread. destruct (decide (name ∈ _)); [reflexivity | contradiction].
Qed.

Lemma measure_once_sim (n : nat) (rs : list Q) (cf : Q) (s : state) :
  ~ (cf == 0)%Q ->
  exists s',
    measure_once (sim_rig R V_off T) (oneshot_conf (Some i) n) rs cf s
    = (Returned (rs ++ [((i * cf * R + V_off) * cf / (i * cf))%Q]), s').
Proof.
  intros Hcf.
  assert (Hd : Qeq_bool (i * cf) 0 = false).
  { destruct (Qeq_bool (i * cf) 0) eqn:E; [|reflexivity].
    apply Qeq_bool_eq in E. apply Qmult_integral in E. tauto. }
  unfold measure_once, bind.
  change (threadname_CURR (oneshot_conf (Some i) n)) with (Some "control_Keithley").
  change (threadname_RES (oneshot_conf (Some i) n)) with (Some "control_Nano").
  rewrite !getthread_oneshot by (cbn [threads oneshot_conf]; set_solver).
  cbn [current_times current_applied oneshot_conf ret call_thread instrument sim_rig].
  rewrite getthread_oneshot by (cbn [threads oneshot_conf]; set_solver).
  cbn [current_times current_applied oneshot_conf ret call_thread instrument sim_rig].
  rewrite getthread_oneshot by (cbn [threads oneshot_conf]; set_solver).
  cbn [current_times current_applied oneshot_conf ret call_thread instrument sim_rig
       tick trace].
  rewrite last_current_app.
  unfold divide. rewrite Hd. eexists. reflexivity.
Qed.

Lemma Qsum_app (l1 l2 : list Q) :
  (fold_right Qplus 0 (l1 ++ l2) == fold_right Qplus 0 l1 + fold_right Qplus 0 l2)%Q.
Proof.
  induction l1 as [|x l1 IH]; simpl.
  - ring.
  - rewrite IH. ring.
Qed.

Lemma reversal_pair_sum :
  ((i * 1 * R + V_off) * 1 / (i * 1) + (i * -1 * R + V_off) * -1 / (i * -1)
   == 2 * (V_off / i))%Q.
Proof. field. assumption. Qed.

Lemma measure_pair_sim (n : nat) (rs : list Q) (s : state) :
  exists s',
    for_acc [1%Q; (-1)%Q] (measure_once (sim_rig R V_off T) (oneshot_conf (Some i) n)) rs s
    = (Returned (rs ++ [((i * 1 * R + V_off) * 1 / (i * 1))%Q;
                        ((i * -1 * R + V_off) * -1 / (i * -1))%Q]), s').
Proof.
  cbn [for_acc]. unfold bind.
  destruct (measure_once_sim n rs 1 s) as [s1 E1]; [discriminate|]. rewrite E1.
  destruct (measure_once_sim n (rs ++ [((i * 1 * R + V_off) * 1 / (i * 1))%Q]) (-1) s1)
    as [s2 E2]; [discriminate|]. rewrite E2.
  exists s2. unfold ret. now rewrite <- app_assoc.
Qed.

Lemma for_acc_cons {A B} (x : A) (l : list A) (body : B -> A -> M B) (b : B) (s : state) :
  for_acc (x :: l) body b s = bind (body b x) (fun b' => for_acc l body b') s.
Proof. reflexivity. Qed.

Lemma measure_loop_sim (n : nat) (l : list nat) :
  forall (rs : list Q) (k : nat) (s : state),
    length rs = (2 * k)%nat ->
    (fold_right Qplus 0 rs == inject_Z (Z.of_nat (2 * k)) * (V_off / i))%Q ->
    exists rs' s',
      for_acc l
        (fun rs _ =>
           for_acc [1%Q; (-1)%Q]
             (measure_once (sim_rig R V_off T) (oneshot_conf (Some i) n)) rs) rs s
      = (Returned rs', s')
      /\ length rs' = (2 * (k + length l))%nat
      /\ (fold_right Qplus 0 rs'
          == inject_Z (Z.of_nat (2 * (k + length l))) * (V_off / i))%Q.
Proof.
  induction l as [|x l IH]; intros rs k s Hlen Hsum.
  - exists rs, s. rewrite Nat.add_0_r. auto.
  - rewrite for_acc_cons. unfold bind. cbv beta.
    destruct (measure_pair_sim n rs s) as [s1 E1]. rewrite E1.
    destruct (IH (rs ++ [((i * 1 * R + V_off) * 1 / (i * 1))%Q;
                         ((i * -1 * R + V_off) * -1 / (i * -1))%Q]) (S k) s1)
      as [rs' [s' [E [L S']]]].
    + rewrite length_app, Hlen. simpl. lia.
    + rewrite Qsum_app, Hsum. simpl fold_right.
      rewrite Qplus_0_r, reversal_pair_sum.
      replace (Z.of_nat (2 * S k)) with (Z.of_nat (2 * k) + 2)%Z by lia.
      rewrite inject_Z_plus. ring.
    + exists rs', s'. split; [exact E|].
      replace (k + length (x :: l))%nat with (S k + length l)%nat by (simpl; lia).
      auto.
Qed.

(** What the code computes on the simulated rig: the offset voltage over the
    current.  The resistance of the sample has cancelled; the offset has
    not. *)
Lemma R_mean_is_offset_over_current (n : nat) (s : state) :
  (1 <= n)%nat ->
  exists d s',
    measure_resistance (sim_rig R V_off T) np_sqrt (oneshot_conf (Some i) n) s
    = (Returned d, s')
    /\ (R_mean_Ohm d == V_off / i)%Q.
Proof.
  intros Hn. unfold measure_resistance, bind.
  cbn [loopcontrol_threads loopcontrol sim_rig].
  change (threadname_Temp (oneshot_conf (Some i) n)) with (Some "control_LakeShore350").
  rewrite getthread_oneshot by (cbn [threads oneshot_conf]; set_solver).
  cbn [call_thread instrument sim_rig n_measurements oneshot_conf].
  match goal with
  | |- context [for_acc (seq 0 n) ?body [] ?st] =>
      destruct (measure_loop_sim n (seq 0 n) [] 0 st) as [rs [s1 [E [L S']]]];
        [reflexivity | reflexivity |]
  end.
  rewrite E.
  rewrite getthread_oneshot by (cbn [threads oneshot_conf]; set_solver).
  eexists. eexists. split; [reflexivity|].
  cbn [R_mean_Ohm]. unfold mean. rewrite L, S'.
  rewrite length_seq. cbn [Nat.add].
  field. split; [assumption|].
  intros H. apply (inject_Z_injective (Z.of_nat (2 * n)) 0) in H. lia.
Qed.

End Reversal.

(** C1, on the code: the sign is applied to the voltage and to the current
    alike, so every sample is the plain ratio [V / I].  For a sample of 100
    Ohm, an offset of 1 mV and a current of 1 mA, ten reversals give a mean
    of 1 Ohm, the offset over the current, not the 100 Ohm of the sample. *)
Theorem offset_survives_reversal :
  forall np_sqrt : Q -> Q,
  exists d : Data,
    fst (measure_resistance (sim_rig 100 0.001 4.2) np_sqrt
           (oneshot_conf (Some 0.001%Q) 10) s0) = Returned d
    /\ (R_mean_Ohm d == 0.001 / 0.001)%Q
    /\ ~ (R_mean_Ohm d == 100)%Q.
Proof.
  intros np_sqrt. eexists. split; [vm_compute; reflexivity|].
  split; vm_compute; [reflexivity | discriminate].
Qed.

(** * Further properties of the sequence engine *)

(** ** How long a temperature wait lasts *)

Lemma Qgtb_not_near (target threshold x : Q) :
  ~ near target threshold x -> Qgtb (Qabs (x - target)) threshold = true.
Proof.
  unfold near, Qgtb, Qltb. intros H.
  destruct (Qle_bool (Qabs (x - target)) threshold) eqn:E; [|reflexivity].
  apply Qle_bool_iff in E. contradiction.
Qed.

Lemma wait_loop_turn (w : World) (fuel : nat) (target threshold Temp_now : Q) (s : state) :
  ~ near target threshold Temp_now ->
  wait_loop w (S fuel) target threshold Temp_now s
  = wait_loop w fuel target threshold (Sensor_1_K w (now s))
      {| now := now s + 2; trace := trace s ++ [EvSleep 0.1] |}.
Proof.
  intros H. cbn [wait_loop]. rewrite (Qgtb_not_near _ _ _ H).
  unfold bind, read_Sensor_1_K, sleep.
  change (Qle_bool sleep_min 0.1 && Qle_bool 0.1 sleep_max) with true.
  change (Qle_bool 0 0.1) with true. cbv iota. unfold emit, tick. cbn [now trace].
  rewrite app_nil_r. replace (S (S (now s))) with (now s + 2)%nat by lia.
  reflexivity.
Qed.

(** The loop entered with the reading [Temp_now] at time [now s]: its
    later readings are taken at [now s], [now s + 2], ... *)
Lemma wait_loop_converges (w : World) (target threshold : Q) (k : nat) :
  forall (fuel : nat) (Temp_now : Q) (s : state),
    (k <= fuel)%nat ->
    (forall j, (j < k)%nat ->
       ~ near target threshold
           (match j with O => Temp_now | S j' => Sensor_1_K w (now s + 2 * j') end)) ->
    near target threshold
      (match k with O => Temp_now | S k' => Sensor_1_K w (now s + 2 * k') end) ->
    wait_loop w fuel target threshold Temp_now s
    = (Returned tt,
       {| now := now s + 2 * k; trace := trace s ++ repeat (EvSleep 0.1) k |}).
Proof.
  induction k as [|k IH]; intros fuel Temp_now s Hk Hfar Hnear.
  - rewrite (wait_loop_converged w fuel target threshold Temp_now s Hnear).
    destruct s as [t tr]. cbn [now trace repeat].
    f_equal. f_equal; [lia | symmetry; apply app_nil_r].
  - destruct fuel as [|fuel]; [lia|].
    rewrite wait_loop_turn by (apply (Hfar 0%nat); lia).
    rewrite IH.
    + cbn [now trace]. f_equal. f_equal; [lia|].
      rewrite <- app_assoc. reflexivity.
    + lia.
    + intros j Hj. cbn [now]. destruct j as [|j'].
      * specialize (Hfar 1%nat ltac:(lia)). cbn in Hfar.
        now rewrite Nat.add_0_r in Hfar.
      * specialize (Hfar (S (S j')) ltac:(lia)). cbn beta iota in Hfar.
        replace (now s + 2 + 2 * j')%nat with (now s + 2 * S j')%nat by lia.
        exact Hfar.
    + cbn [now]. destruct k as [|k'].
      * cbn in Hnear. now rewrite Nat.add_0_r in Hnear.
      * replace (now s + 2 + 2 * k')%nat with (now s + 2 * S k')%nat by lia.
        exact Hnear.
Qed.

Lemma wait_for_Temp_enter (w : World) (fuel : nat) (target threshold : Q) (s : state) :
  isRunning w (now s) = true ->
  wait_for_Temp w fuel (VNum target) threshold s
  = wait_loop w fuel target threshold (Sensor_1_K w (S (now s)))
      {| now := now s + 2; trace := trace s |}.
Proof.
  intros H. unfold wait_for_Temp, bind, read_isRunning, read_Sensor_1_K, as_num, ret.
  rewrite H. cbn [negb]. unfold tick. cbn [now trace]. rewrite !app_nil_r.
  replace (S (S (now s))) with (now s + 2)%nat by lia. reflexivity.
Qed.

Lemma wait_for_Temp_converges
  (w : World) (fuel k : nat) (target threshold : Q) (s : state) :
  isRunning w (now s) = true ->
  (k <= fuel)%nat ->
  (forall j, (j < k)%nat -> ~ near target threshold (Temp_reading w s j)) ->
  near target threshold (Temp_reading w s k) ->
  wait_for_Temp w fuel (VNum target) threshold s
  = (Returned tt,
     {| now := now s + 2 + 2 * k; trace := trace s ++ repeat (EvSleep 0.1) k |}).
Proof.
  intros Hrun Hk Hfar Hnear.
  rewrite (wait_for_Temp_enter w fuel target threshold s Hrun).
  rewrite (wait_loop_converges w target threshold k).
  - reflexivity.
  - exact Hk.
  - intros j Hj. specialize (Hfar j Hj). cbn [now]. destruct j as [|j']; [exact Hfar|].
    unfold Temp_reading in Hfar.
    replace (now s + 2 + 2 * j')%nat with (now s + 2 * S j')%nat by lia. exact Hfar.
  - cbn [now]. destruct k as [|k']; [exact Hnear|].
    unfold Temp_reading in Hnear.
    replace (now s + 2 + 2 * k')%nat with (now s + 2 * S k')%nat by lia. exact Hnear.
Qed.

(** X1: entered with the flag unset, [wait_for_Temp] returns as soon as a
    reading is within the threshold: if the readings number 0 to k-1 are
    off and reading number k is near, it sleeps exactly k times 0.1 s, does
    nothing else, and has taken 2 + 2k actions. *)
Theorem wait_for_Temp_sleeps_until_converged
  (w : World) (fuel k : nat) (target threshold : Q) (s : state) :
  isRunning w (now s) = true ->
  (k <= fuel)%nat ->
  (forall j, (j < k)%nat -> ~ near target threshold (Temp_reading w s j)) ->
  near target threshold (Temp_reading w s k) ->
  wait_for_Temp w fuel (VNum target) threshold s
  = (Returned tt,
     {| now := now s + 2 + 2 * k; trace := trace s ++ repeat (EvSleep 0.1) k |}).
Proof. apply wait_for_Temp_converges. Qed.

Lemma wait_for_Temp_sleeps_until_converged_witness :
  let w := drifting_rig [300; 250; 200; 100; 4.305]%Q 4.3 in
  isRunning w (now s0) = true
  /\ (2 <= 5)%nat
  /\ (forall j, (j < 2)%nat -> ~ near 4.3 0.01 (Temp_reading w s0 j))
  /\ near 4.3 0.01 (Temp_reading w s0 2)
  /\ wait_for_Temp w 5 (VNum 4.3) 0.01 s0
     = (Returned tt,
        {| now := now s0 + 2 + 2 * 2; trace := trace s0 ++ repeat (EvSleep 0.1) 2 |}).
Proof.
  intros w.
  assert (Hfar : forall j, (j < 2)%nat -> ~ near 4.3 0.01 (Temp_reading w s0 j)).
  { intros j Hj. destruct j as [|[|j]]; [| |lia]; vm_compute; intros H; apply H; reflexivity. }
  assert (Hnear : near 4.3 0.01 (Temp_reading w s0 2)).
  { vm_compute. discriminate. }
  split; [reflexivity|]. split; [lia|]. split; [exact Hfar|]. split; [exact Hnear|].
  apply (wait_for_Temp_sleeps_until_converged w 5 2 4.3 0.01 s0).
  - reflexivity.
  - lia.
  - exact Hfar.
  - exact Hnear.
Defined.

Lemma wait_loop_polls_on (w : World) (target threshold : Q) (fuel : nat) :
  forall (Temp_now : Q) (s : state),
    (forall j,
       ~ near target threshold
           (match j with O => Temp_now | S j' => Sensor_1_K w (now s + 2 * j') end)) ->
    wait_loop w fuel target threshold Temp_now s
    = (Diverged,
       {| now := now s + 2 * fuel; trace := trace s ++ repeat (EvSleep 0.1) fuel |}).
Proof.
  induction fuel as [|fuel IH]; intros Temp_now s Hfar.
  - cbn [wait_loop]. rewrite (Qgtb_not_near _ _ _ (Hfar 0%nat)).
    unfold diverge. destruct s as [t tr]. cbn [now trace repeat].
    f_equal. f_equal; [lia | symmetry; apply app_nil_r].
  - rewrite wait_loop_turn by (apply (Hfar 0%nat)).
    rewrite IH.
    + cbn [now trace]. f_equal. f_equal; [lia|].
      rewrite <- app_assoc. reflexivity.
    + intros j. cbn [now]. destruct j as [|j'].
      * specialize (Hfar 1%nat). cbn in Hfar. now rewrite Nat.add_0_r in Hfar.
      * specialize (Hfar (S (S j'))). cbn beta iota in Hfar.
        replace (now s + 2 + 2 * j')%nat with (now s + 2 * S j')%nat by lia.
        exact Hfar.
Qed.

(** X2: [wait_for_Temp] has no timeout and no way out but convergence: once
    it is entered, as long as the readings stay off the target it reads and
    sleeps, whatever the budget of turns and whenever [stop()] is called
    afterwards; it never returns and never raises. *)
Theorem wait_for_Temp_never_gives_up
  (w : World) (target threshold : Q) (s : state) :
  isRunning w (now s) = true ->
  (forall j, ~ near target threshold (Temp_reading w s j)) ->
  forall fuel,
    wait_for_Temp w fuel (VNum target) threshold s
    = (Diverged,
       {| now := now s + 2 + 2 * fuel;
          trace := trace s ++ repeat (EvSleep 0.1) fuel |}).
Proof.
  intros Hrun Hfar fuel.
  rewrite (wait_for_Temp_enter w fuel target threshold s Hrun).
  rewrite (wait_loop_polls_on w target threshold fuel).
  - reflexivity.
  - intros j. specialize (Hfar j). cbn [now]. destruct j as [|j']; [exact Hfar|].
    unfold Temp_reading in Hfar.
    replace (now s + 2 + 2 * j')%nat with (now s + 2 * S j')%nat by lia. exact Hfar.
Qed.

Lemma wait_for_Temp_never_gives_up_witness :
  let w := stopped_rig 1 300 in
  isRunning w (now s0) = true
  /\ (forall j, ~ near 4 0.01 (Temp_reading w s0 j))
  /\ forall fuel,
       wait_for_Temp w fuel (VNum 4) 0.01 s0
       = (Diverged,
          {| now := now s0 + 2 + 2 * fuel;
             trace := trace s0 ++ repeat (EvSleep 0.1) fuel |}).
Proof.
  intros w.
  assert (Hfar : forall j, ~ near 4 0.01 (Temp_reading w s0 j)).
  { intros j. destruct j; vm_compute; intros H; apply H; reflexivity. }
  split; [reflexivity|]. split; [exact Hfar|].
  apply (wait_for_Temp_never_gives_up w 4 0.01 s0).
  - reflexivity.
  - exact Hfar.
Defined.

(** ** The ways a run ends *)

Lemma after_setpoints_trace (b : bool) (s : state) :
  trace (after_setpoints b s) = trace s ++ setpoints_events b.
Proof. unfold after_setpoints. simpl. now rewrite <- !app_assoc. Qed.

(** The result of a run, read off the result of its loop over the steps. *)
Lemma running_cases (w : World) (self : Sequence_Thread) (fuel : nat) (s : state) :
  running w self fuel s
  = match run_entries w self fuel (sequence self) (after_setpoints false s) with
    | (Returned _, s2) => (Returned None, after_setpoints true s2)
    | (Raised BreakCondition, s2) =>
        (Returned (Some "Aborted!"), after_setpoints true (tick [EvAborted] s2))
    | (Raised e, s2) => (Raised e, after_setpoints true s2)
    | (Diverged, s2) => (Diverged, s2)
    end.
Proof.
  unfold running, try_finally, try_except_Break, bind.
  change (setpoints_setEnabled false s) with (Returned tt, after_setpoints false s).
  cbv iota.
  destruct (run_entries w self fuel (sequence self) (after_setpoints false s))
    as [[u|e|] s2]; [reflexivity | | reflexivity].
  destruct e; reflexivity.
Qed.

Lemma filter_not_aborted (evs : list event) :
  Forall not_aborted evs -> List.filter is_aborted evs = [].
Proof.
  induction 1 as [|e evs He _ IH]; [reflexivity|].
  cbn [List.filter]. unfold not_aborted in He. now rewrite He.
Qed.

Lemma steps_not_aborted (w : World) (self : Sequence_Thread) (fuel : nat)
  (l : list (gmap string pyval)) :
  adds not_aborted (run_entries w self fuel l).
Proof.
  apply adds_run_entries; intros; reflexivity.
Qed.

Lemma running_signal_count
  (w : World) (self : Sequence_Thread) (fuel : nat) (s : state) :
  fst (running w self fuel s) <> Raised BreakCondition
  /\ (forall v, fst (running w self fuel s) = Returned (Some v) -> v = "Aborted!")
  /\ exists evs,
       trace (snd (running w self fuel s)) = trace s ++ evs
       /\ length (List.filter is_aborted evs)
          = match fst (running w self fuel s) with
            | Returned (Some _) => 1%nat
            | _ => 0%nat
            end.
Proof.
  rewrite running_cases.
  destruct (run_entries w self fuel (sequence self) (after_setpoints false s))
    as [r1 s2] eqn:E.
  destruct (steps_not_aborted w self fuel _ _ _ _ E) as [evs [T F]].
  rewrite after_setpoints_trace in T.
  assert (Hf : List.filter is_aborted (setpoints_events false ++ evs) = []).
  { rewrite List.filter_app. cbn [List.filter setpoints_events is_aborted app].
    now apply filter_not_aborted. }
  destruct r1 as [u|e|].
  - cbn [fst snd]. split; [discriminate|]. split; [discriminate|].
    exists (setpoints_events false ++ evs ++ setpoints_events true). split.
    + rewrite after_setpoints_trace, T. now rewrite <- !app_assoc.
    + rewrite app_assoc, List.filter_app, Hf. reflexivity.
  - destruct e; cbn [fst snd];
      try (split; [discriminate|]; split; [discriminate|];
           exists (setpoints_events false ++ evs ++ setpoints_events true); split;
           [ rewrite after_setpoints_trace, T; now rewrite <- !app_assoc
           | rewrite app_assoc, List.filter_app, Hf; reflexivity ]).
    split; [discriminate|]. split; [intros v Hv; now inversion Hv|].
    exists (setpoints_events false ++ evs ++ EvAborted :: setpoints_events true). split.
    + rewrite after_setpoints_trace. cbn [tick trace]. rewrite T.
      now rewrite <- !app_assoc.
    + rewrite app_assoc, List.filter_app, Hf. reflexivity.
  - cbn [fst snd]. split; [discriminate|]. split; [discriminate|].
    exists (setpoints_events false ++ evs). split.
    + rewrite T. now rewrite <- app_assoc.
    + rewrite Hf. reflexivity.
Qed.

(** X3: [BreakCondition] never leaves [running], and [sig_aborted] is
    emitted exactly once by a run that returns ['Aborted!'] and not at all
    by any other run; a run returns no string but ['Aborted!']. *)
Theorem running_aborted_signal
  (w : World) (self : Sequence_Thread) (fuel : nat) (s : state) :
  fst (running w self fuel s) <> Raised BreakCondition
  /\ (forall v, fst (running w self fuel s) = Returned (Some v) -> v = "Aborted!")
  /\ exists evs,
       trace (snd (running w self fuel s)) = trace s ++ evs
       /\ length (List.filter is_aborted evs)
          = match fst (running w self fuel s) with
            | Returned (Some _) => 1%nat
            | _ => 0%nat
            end.
Proof. apply running_signal_count. Qed.

(** ** A run nobody stops *)

Lemma no_break_ret {A} (a : A) : no_break (ret a).
Proof. intros s r s' H. inversion H. discriminate. Qed.

Lemma no_break_raise {A} (e : exn) : e <> BreakCondition -> no_break (@raise A e).
Proof. intros He s r s' H. inversion H. congruence. Qed.

Lemma no_break_diverge {A} : no_break (@diverge A).
Proof. intros s r s' H. inversion H. discriminate. Qed.

Lemma no_break_bind {A B} (m : M A) (k : A -> M B) :
  no_break m -> (forall a, no_break (k a)) -> no_break (bind m k).
Proof.
  intros Hm Hk s r s' H. unfold bind in H.
  destruct (m s) as [[a|e|] s1] eqn:E.
  - exact (Hk a _ _ _ H).
  - inversion H; subst. intros Hb. inversion Hb; subst.
    exact (Hm _ _ _ E eq_refl).
  - inversion H. discriminate.
Qed.

Lemma no_break_for_each {A} (l : list A) (body : A -> M unit) :
  (forall x, no_break (body x)) -> no_break (for_each l body).
Proof.
  intros Hb. induction l as [|x l IH]; cbn [for_each].
  - apply no_break_ret.
  - apply no_break_bind; [apply Hb | intros _; exact IH].
Qed.

Lemma no_break_sleep (d : Q) : no_break (sleep d).
Proof.
  unfold sleep.
  destruct (Qle_bool sleep_min d && Qle_bool d sleep_max);
    [|now apply no_break_raise].
  destruct (Qle_bool 0 d).
  - intros s r s' H. inversion H. discriminate.
  - now apply no_break_raise.
Qed.

Lemma no_break_getitem (d : gmap string pyval) (k : string) : no_break (getitem d k).
Proof.
  unfold getitem. destruct (d !! k); [apply no_break_ret | now apply no_break_raise].
Qed.

Lemma no_break_as_num (v : pyval) : no_break (as_num v).
Proof. destruct v; simpl; first [apply no_break_ret | now apply no_break_raise]. Qed.

Lemma no_break_iterate (v : pyval) : no_break (iterate v).
Proof.
  destruct v as [|q|s|l]; simpl;
    try (now apply no_break_raise); try apply no_break_ret.
  destruct s; apply no_break_ret.
Qed.

Lemma no_break_getthread (ts : gset string) (name : option string) :
  no_break (getthread ts name).
Proof.
  destruct name as [n|]; simpl; [|now apply no_break_raise].
  destruct (decide (n ∈ ts)); [apply no_break_ret | now apply no_break_raise].
Qed.

Section NeverStopped.

Variable w : World.
Hypothesis never_stopped : stop_at w = None.
Hypothesis instruments_ok : no_foreign_break w.

Lemma isRunning_always (t : nat) : isRunning w t = true.
Proof. unfold isRunning. now rewrite never_stopped. Qed.

Lemma no_break_call_thread (th : string) (c : call) : no_break (call_thread w th c).
Proof. intros s r s' H. inversion H; subst. apply instruments_ok. Qed.

Lemma no_break_read_Sensor_1_K : no_break (read_Sensor_1_K w).
Proof. intros s r s' H. inversion H. discriminate. Qed.

Lemma no_break_wait_loop (fuel : nat) (target threshold : Q) :
  forall Temp_now, no_break (wait_loop w fuel target threshold Temp_now).
Proof.
  induction fuel as [|fuel IH]; intros Temp_now; cbn [wait_loop];
    destruct (Qgtb (Qabs (Temp_now - target)) threshold);
    try apply no_break_ret; try apply no_break_diverge.
  apply no_break_bind; [apply no_break_read_Sensor_1_K | intros Tn].
  apply no_break_bind; [apply no_break_sleep | intros _; apply IH].
Qed.

Lemma no_break_wait_for_Temp (fuel : nat) (T : pyval) (threshold : Q) :
  no_break (wait_for_Temp w fuel T threshold).
Proof.
  intros s r s' H. unfold wait_for_Temp in H. unfold bind at 1 in H.
  unfold read_isRunning in H. rewrite isRunning_always in H. cbn [negb] in H.
  revert H. apply no_break_bind; [apply no_break_read_Sensor_1_K | intros Tn].
  apply no_break_bind; [apply no_break_as_num | intros t].
  apply no_break_wait_loop.
Qed.

Lemma no_break_wait_for_Field (F : pyval) : no_break (wait_for_Field w F).
Proof.
  intros s r s' H. unfold wait_for_Field, bind, read_isRunning in H.
  rewrite isRunning_always in H. cbn [negb] in H.
  exact (no_break_sleep _ _ _ _ H).
Qed.

Lemma no_break_scan_T_step (self : Sequence_Thread) (x : pyval) :
  no_break (scan_T_step w self x).
Proof.
  unfold scan_T_step, check_Temp_in_Scan.
  repeat first
    [ apply no_break_bind; [|intro]
    | apply no_break_as_num | apply no_break_getthread
    | apply no_break_call_thread | apply no_break_ret ].
Qed.

Lemma no_break_run_entry (self : Sequence_Thread) (fuel : nat)
  (entry : gmap string pyval) :
  no_break (run_entry w self fuel entry).
Proof.
  unfold run_entry.
  apply no_break_bind; [apply no_break_getitem | intros typ].
  apply no_break_bind.
  - destruct (is_str typ "scan_T"); [|apply no_break_ret].
    apply no_break_bind; [apply no_break_getitem | intros v].
    apply no_break_bind; [apply no_break_iterate | intros l].
    apply no_break_for_each. apply no_break_scan_T_step.
  - intros _. apply no_break_bind; [apply no_break_getitem | intros typ'].
    destruct (is_str typ' "Wait"); [|apply no_break_ret].
    apply no_break_bind; [apply no_break_getitem | intros T].
    apply no_break_bind; [apply no_break_wait_for_Temp | intros _].
    apply no_break_bind; [apply no_break_getitem | intros F].
    apply no_break_bind; [apply no_break_wait_for_Field | intros _].
    apply no_break_bind; [apply no_break_getitem | intros D].
    apply no_break_bind; [apply no_break_as_num | intros d].
    apply no_break_sleep.
Qed.

End NeverStopped.

(** X4: when nobody calls [stop()] (and no instrument raises the engine's
    own [BreakCondition]), no run is aborted: whatever the sequence, the run
    does not return ['Aborted!'] and does not emit [sig_aborted]. *)
Theorem running_not_aborted_unless_stopped
  (w : World) (self : Sequence_Thread) (fuel : nat) (s : state) :
  stop_at w = None ->
  no_foreign_break w ->
  (forall v, fst (running w self fuel s) <> Returned (Some v))
  /\ exists evs,
       trace (snd (running w self fuel s)) = trace s ++ evs
       /\ List.filter is_aborted evs = [].
Proof.
  intros Hstop Hok.
  destruct (running_signal_count w self fuel s) as [_ [_ [evs [T C]]]].
  assert (Hnb := no_break_for_each (sequence self) (run_entry w self fuel)
                   (no_break_run_entry w Hstop Hok self fuel)).
  assert (Hv : forall v, fst (running w self fuel s) <> Returned (Some v)).
  { rewrite running_cases.
    destruct (run_entries w self fuel (sequence self) (after_setpoints false s))
      as [[u|e|] s2] eqn:E; try (intros v; discriminate).
    destruct e; try (intros v; discriminate).
    exfalso. exact (Hnb _ _ _ E eq_refl). }
  split; [exact Hv|].
  exists evs. split; [exact T|].
  destruct (fst (running w self fuel s)) as [[v|]|e|];
    try (destruct (List.filter is_aborted evs); [reflexivity | discriminate]).
  exfalso. exact (Hv v eq_refl).
Qed.

Lemma running_not_aborted_unless_stopped_witness :
  let w := sim_rig 0 0 4.2 in
  let self := engine [scan_entry [10%Q]; wait_entry 4.2 0 1] 5 in
  stop_at w = None
  /\ no_foreign_break w
  /\ (forall v, fst (running w self 0 s0) <> Returned (Some v))
  /\ exists evs,
       trace (snd (running w self 0 s0)) = trace s0 ++ evs
       /\ List.filter is_aborted evs = [].
Proof.
  intros w self.
  assert (Hok : no_foreign_break w).
  { intros tr th c. destruct c; discriminate. }
  split; [reflexivity|]. split; [exact Hok|].
  apply (running_not_aborted_unless_stopped w self 0 s0); [reflexivity | exact Hok].
Defined.

(** ** A step that fails *)

Lemma run_entries_after_prefix
  (w : World) (self : Sequence_Thread) (fuel : nat)
  (pre post : list (gmap string pyval)) (entry : gmap string pyval) (s s1 : state) :
  (setpoints_setEnabled false ;;; run_entries w self fuel pre) s = (Returned tt, s1) ->
  run_entries w self fuel (pre ++ entry :: post) (after_setpoints false s)
  = (run_entry w self fuel entry ;;; run_entries w self fuel post) s1.
Proof.
  intros Hpre. unfold bind in Hpre.
  change (setpoints_setEnabled false s) with (Returned tt, after_setpoints false s) in Hpre.
  cbv iota in Hpre.
  unfold run_entries in *. rewrite for_each_app. unfold bind at 1.
  rewrite Hpre. reflexivity.
Qed.

(** X5: an exception other than [BreakCondition] raised by a step leaves
    [running] unchanged, after the setpoint controls have been enabled
    again; nothing else happens after the failing step, and the steps after
    it never run. *)
Theorem step_fault_surfaces_after_cleanup
  (w : World) (self : Sequence_Thread) (fuel : nat)
  (pre post : list (gmap string pyval)) (entry : gmap string pyval)
  (e : exn) (s s1 s2 : state) :
  sequence self = pre ++ entry :: post ->
  (setpoints_setEnabled false ;;; run_entries w self fuel pre) s = (Returned tt, s1) ->
  run_entry w self fuel entry s1 = (Raised e, s2) ->
  e <> BreakCondition ->
  fst (running w self fuel s) = Raised e
  /\ trace (snd (running w self fuel s)) = trace s2 ++ setpoints_events true.
Proof.
  intros Hseq Hpre Hentry He.
  rewrite running_cases, Hseq.
  rewrite (run_entries_after_prefix w self fuel pre post entry s s1 Hpre).
  unfold bind. rewrite Hentry.
  destruct e; try contradiction; cbn [fst snd];
    (split; [reflexivity | apply after_setpoints_trace]).
Qed.

Lemma step_fault_surfaces_after_cleanup_witness :
  let w := sim_rig 0 0 4.2 in
  let self := engine [scan_entry [10%Q]; wait_entry 4.2 0 (-1); scan_entry [20%Q]] 5 in
  let s1 := snd ((setpoints_setEnabled false ;;;
                  run_entries w self 0 [scan_entry [10%Q]]) s0) in
  let s2 := snd (run_entry w self 0 (wait_entry 4.2 0 (-1)) s1) in
  (sequence self = [scan_entry [10%Q]] ++ wait_entry 4.2 0 (-1) :: [scan_entry [20%Q]]
   /\ (setpoints_setEnabled false ;;; run_entries w self 0 [scan_entry [10%Q]]) s0
      = (Returned tt, s1)
   /\ run_entry w self 0 (wait_entry 4.2 0 (-1)) s1 = (Raised ValueError, s2)
   /\ ValueError <> BreakCondition)
  /\ fst (running w self 0 s0) = Raised ValueError
  /\ trace (snd (running w self 0 s0)) = trace s2 ++ setpoints_events true.
Proof.
  intros w self s1 s2. split.
  { split; [reflexivity|]. split; [vm_compute; reflexivity|].
    split; [vm_compute; reflexivity | discriminate]. }
  apply (step_fault_surfaces_after_cleanup w self 0
           [scan_entry [10%Q]] [scan_entry [20%Q]] (wait_entry 4.2 0 (-1))
           ValueError s0 s1 s2).
  - reflexivity.
  - vm_compute. reflexivity.
  - vm_compute. reflexivity.
  - discriminate.
Defined.

(** ** The floor of the intermediate setpoint *)

Lemma temp_setpoint_VTI_floor (self : Sequence_Thread) (t : Q) :
  (4.3 <= temp_setpoint_VTI self t)%Q.
Proof.
  unfold temp_setpoint_VTI.
  destruct (Qltb (t - temp_VTI_offset self) 4.3) eqn:E.
  - apply Qle_refl.
  - now apply Qltb_ge in E.
Qed.

Lemma adds_scan_T_step_floor (w : World) (self : Sequence_Thread) (x : pyval) :
  adds vti_floor (scan_T_step w self x).
Proof.
  unfold scan_T_step, check_Temp_in_Scan.
  repeat adds_step; try exact I.
  apply temp_setpoint_VTI_floor.
Qed.

Lemma adds_run_entry_with (w : World) (P : event -> Prop)
  (self : Sequence_Thread) (fuel : nat) (entry : gmap string pyval) :
  (forall x, adds P (scan_T_step w self x)) ->
  (forall d, P (EvSleep d)) ->
  adds P (run_entry w self fuel entry).
Proof.
  intros Hscan Hsleep. unfold run_entry. adds_step; [adds_step|]. adds_step.
  - destruct (is_str a "scan_T"); [|adds_step].
    repeat adds_step. apply adds_for_each. apply Hscan.
  - adds_step; [adds_step|].
    destruct (is_str a1 "Wait"); [|adds_step].
    adds_step; [adds_step|]. adds_step; [now apply adds_wait_for_Temp|].
    adds_step; [adds_step|]. adds_step; [now apply adds_wait_for_Field|].
    repeat adds_step; auto.
Qed.

Lemma adds_running (w : World) (P : event -> Prop)
  (self : Sequence_Thread) (fuel : nat) :
  (forall win b, P (EvSetEnabled win b)) ->
  P EvAborted ->
  adds P (run_entries w self fuel (sequence self)) ->
  adds P (running w self fuel).
Proof.
  intros Hset Hab Hbody s r s' H. rewrite running_cases in H.
  assert (Hev : forall b, Forall P (setpoints_events b)).
  { intros b. repeat constructor; apply Hset. }
  destruct (run_entries w self fuel (sequence self) (after_setpoints false s))
    as [r1 s2] eqn:E.
  destruct (Hbody _ _ _ E) as [evs [T F]]. rewrite after_setpoints_trace in T.
  destruct r1 as [u|e|].
  - inversion H; subst.
    exists (setpoints_events false ++ evs ++ setpoints_events true). split.
    + rewrite after_setpoints_trace, T. now rewrite <- !app_assoc.
    + repeat (apply Forall_app; split); auto.
  - destruct e; inversion H; subst;
      try (exists (setpoints_events false ++ evs ++ setpoints_events true); split;
           [ rewrite after_setpoints_trace, T; now rewrite <- !app_assoc
           | repeat (apply Forall_app; split); auto ]).
    exists (setpoints_events false ++ evs ++ EvAborted :: setpoints_events true). split.
    + rewrite after_setpoints_trace. cbn [tick trace]. rewrite T.
      now rewrite <- !app_assoc.
    + repeat (apply Forall_app; split); auto.
  - inversion H; subst. exists (setpoints_events false ++ evs). split.
    + rewrite T. now rewrite <- app_assoc.
    + apply Forall_app; split; auto.
Qed.

(** X6: no run, whatever its sequence, its offset, the rig and the way it
    ends, ever asks the intermediate stage for a setpoint below 4.3 K. *)
Theorem running_keeps_VTI_floor
  (w : World) (self : Sequence_Thread) (fuel : nat) (s : state) :
  exists evs,
    trace (snd (running w self fuel s)) = trace s ++ evs
    /\ forall th q, In (EvCall th (gettoset_Temperature q)) evs -> (4.3 <= q)%Q.
Proof.
  destruct (running w self fuel s) as [r s'] eqn:E.
  assert (Hadds : adds vti_floor (running w self fuel)).
  { apply adds_running; try (intros; exact I).
    apply adds_for_each. intros entry.
    apply adds_run_entry_with; [apply adds_scan_T_step_floor | intros; exact I]. }
  destruct (Hadds _ _ _ E) as [evs [T F]].
  exists evs. split; [exact T|].
  intros th q Hin. exact (proj1 (List.Forall_forall _ _) F _ Hin).
Qed.

(** ** What a scan step and a wait step do on a rig that answers *)

Lemma call_thread_answers (w : World) (th : string) (c : call) (s : state) :
  answers w ->
  exists q, call_thread w th c s = (Returned q, tick [EvCall th c] s).
Proof.
  intros Hans. destruct (Hans (trace s) th c) as [q Hq].
  exists q. unfold call_thread. now rewrite Hq.
Qed.

Lemma getthread_present (ts : gset string) (n : string) (s : state) :
  n ∈ ts -> getthread ts (Some n) s = (Returned n, s).
Proof.
  intros H. unfold getthread. destruct (decide (n ∈ ts)); [reflexivity | contradiction].
Qed.

Lemma scan_T_step_answers (w : World) (self : Sequence_Thread) (t : Q) (s : state) :
  answers w ->
  "control_ITC" ∈ mainthread_threads self ->
  "control_LakeShore350" ∈ mainthread_threads self ->
  exists s',
    scan_T_step w self (VNum t) s = (Returned tt, s')
    /\ trace s' = trace s ++ scan_events self t.
Proof.
  intros Hans Hitc Hls. unfold scan_T_step, bind, check_Temp_in_Scan. cbn [as_num ret].
  rewrite (getthread_present _ _ _ Hitc).
  destruct (call_thread_answers w "control_ITC"
              (gettoset_Temperature (temp_setpoint_VTI self t)) s Hans) as [q1 E1].
  rewrite E1. rewrite (getthread_present _ _ _ Hitc).
  destruct (call_thread_answers w "control_ITC" setTemperature
              (tick [EvCall "control_ITC"
                       (gettoset_Temperature (temp_setpoint_VTI self t))] s) Hans)
    as [q2 E2].
  rewrite E2. rewrite (getthread_present _ _ _ Hls).
  match goal with
  | |- context [call_thread w "control_LakeShore350" (gettoset_Temp_K t) ?st] =>
      destruct (call_thread_answers w "control_LakeShore350" (gettoset_Temp_K t) st Hans)
        as [q3 E3]
  end.
  rewrite E3. rewrite (getthread_present _ _ _ Hls).
  match goal with
  | |- context [call_thread w "control_LakeShore350" setTemp_K ?st] =>
      destruct (call_thread_answers w "control_LakeShore350" setTemp_K st Hans)
        as [q4 E4]
  end.
  rewrite E4. eexists. split; [reflexivity|].
  cbn [tick trace scan_events]. now rewrite <- !app_assoc.
Qed.

Lemma scan_loop_answers (w : World) (self : Sequence_Thread) (targets : list Q) :
  answers w ->
  "control_ITC" ∈ mainthread_threads self ->
  "control_LakeShore350" ∈ mainthread_threads self ->
  forall s, exists s',
    for_each (map VNum targets) (scan_T_step w self) s = (Returned tt, s')
    /\ trace s' = trace s ++ flat_map (scan_events self) targets.
Proof.
  intros Hans Hitc Hls.
  induction targets as [|t targets IH]; intros s.
  - exists s. split; [reflexivity|]. cbn [flat_map]. now rewrite app_nil_r.
  - cbn [map for_each flat_map]. unfold bind.
    destruct (scan_T_step_answers w self t s Hans Hitc Hls) as [s1 [E1 T1]].
    rewrite E1. destruct (IH s1) as [s' [E' T']].
    exists s'. split; [exact E'|]. rewrite T', T1. now rewrite <- app_assoc.
Qed.

(** X7: on a rig that answers every call, a scan step commands, for each
    target in order, the intermediate stage (prepare, commit) and then the
    sample stage (prepare, commit), and nothing else: four calls a target,
    no reading and no sleep in between. *)
Theorem scan_T_commands_in_order
  (w : World) (self : Sequence_Thread) (fuel : nat) (targets : list Q)
  (entry : gmap string pyval) (s : state) :
  answers w ->
  "control_ITC" ∈ mainthread_threads self ->
  "control_LakeShore350" ∈ mainthread_threads self ->
  entry !! "typ" = Some (VStr "scan_T") ->
  entry !! "sequence_temperature" = Some (VList (map VNum targets)) ->
  exists s',
    run_entry w self fuel entry s = (Returned tt, s')
    /\ trace s' = trace s ++ flat_map (scan_events self) targets.
Proof.
  intros Hans Hitc Hls Htyp Hseq.
  destruct (scan_loop_answers w self targets Hans Hitc Hls s) as [s' [E T]].
  exists s'. split; [|exact T].
  unfold run_entry, bind, getitem. rewrite Htyp. cbn [ret].
  change (is_str (VStr "scan_T") "scan_T") with true.
  change (is_str (VStr "scan_T") "Wait") with false. cbv iota.
  rewrite Hseq. cbn [ret iterate]. now rewrite E.
Qed.

Lemma scan_T_commands_in_order_witness :
  let w := sim_rig 0 0 4.2 in
  let self := engine [] 5 in
  (answers w
   /\ "control_ITC" ∈ mainthread_threads self
   /\ "control_LakeShore350" ∈ mainthread_threads self
   /\ scan_entry [10%Q; 3%Q] !! "typ" = Some (VStr "scan_T")
   /\ scan_entry [10%Q; 3%Q] !! "sequence_temperature"
      = Some (VList (map VNum [10%Q; 3%Q])))
  /\ exists s',
       run_entry w self 0 (scan_entry [10%Q; 3%Q]) s0 = (Returned tt, s')
       /\ trace s' = trace s0 ++ flat_map (scan_events self) [10%Q; 3%Q].
Proof.
  intros w self.
  assert (Hans : answers w).
  { intros tr th c. destruct c; eexists; reflexivity. }
  assert (Hitc : "control_ITC" ∈ mainthread_threads self).
  { cbn [mainthread_threads self engine]. set_solver. }
  assert (Hls : "control_LakeShore350" ∈ mainthread_threads self).
  { cbn [mainthread_threads self engine]. set_solver. }
  split.
  { split; [exact Hans|]. split; [exact Hitc|]. split; [exact Hls|].
    split; reflexivity. }
  apply (scan_T_commands_in_order w self 0 [10%Q; 3%Q] (scan_entry [10%Q; 3%Q]) s0);
    [exact Hans | exact Hitc | exact Hls | reflexivity | reflexivity].
Defined.


(** Beyond what the nanosecond count holds, [time.sleep] raises and nothing
    is slept. *)
Lemma sleep_too_long (d : Q) (s : state) :
  (sleep_max < d)%Q -> sleep d s = (Raised OverflowError, s).
Proof.
  intros H. unfold sleep.
  destruct (Qle_bool d sleep_max) eqn:E.
  - apply Qle_bool_iff in E. exfalso. exact (Qlt_not_le _ _ H E).
  - now rewrite andb_false_r.
Qed.



(** * Further properties of the resistance measurement *)

Lemma bind_Returned {A B} (m : M A) (k : A -> M B) (s s' : state) (b : B) :
  bind m k s = (Returned b, s') ->
  exists a s1, m s = (Returned a, s1) /\ k a s1 = (Returned b, s').
Proof.
  unfold bind. intros H. destruct (m s) as [[a|e|] s1]; try discriminate.
  exists a, s1. split; [reflexivity | exact H].
Qed.

Lemma adds_measure_once_calls (w : World) (P : event -> Prop)
  (conf : Conf) (rs : list Q) (cf : Q) :
  (forall th c, P (EvCall th c)) ->
  adds P (measure_once w conf rs cf).
Proof.
  intros Hcall. unfold measure_once.
  repeat first
    [ apply adds_bind; [|intro]
    | apply adds_getthread | apply adds_current_times | apply adds_divide
    | apply adds_ret | now apply adds_call_thread ].
Qed.

Lemma filter_not_loopcontrol (evs : list event) :
  Forall not_loopcontrol evs -> List.filter is_loopcontrol evs = [].
Proof.
  induction 1 as [|e evs He _ IH]; [reflexivity|].
  cbn [List.filter]. unfold not_loopcontrol in He. now rewrite He.
Qed.

(** X9: a measurement that returns has paused the control loops first and
    resumed them last, once each: between the two no loop control is
    called. *)
Theorem measure_resistance_pairs_on_return
  (w : World) (np_sqrt : Q -> Q) (conf : Conf) (s : state) :
  returns (fst (measure_resistance w np_sqrt conf s)) = true ->
  exists mid,
    trace (snd (measure_resistance w np_sqrt conf s))
    = trace s ++ EvLoopcontrol false :: mid ++ [EvLoopcontrol true]
    /\ List.filter is_loopcontrol mid = [].
Proof.
  intros Hret.
  destruct (measure_resistance w np_sqrt conf s) as [[d|e|] s'] eqn:E;
    try discriminate.
  cbn [snd]. unfold measure_resistance in E.
  apply bind_Returned in E. destruct E as [u [s1 [E1 E]]].
  apply bind_Returned in E. destruct E as [th [s2 [E2 E]]].
  apply bind_Returned in E. destruct E as [t0 [s3 [E3 E]]].
  apply bind_Returned in E. destruct E as [rs [s4 [E4 E]]].
  apply bind_Returned in E. destruct E as [th' [s5 [E5 E]]].
  apply bind_Returned in E. destruct E as [t1 [s6 [E6 E]]].
  apply bind_Returned in E. destruct E as [u' [s7 [E7 E]]].
  inversion E; subst. inversion E1; subst. inversion E7; subst.
  assert (Hcall : forall th c, not_loopcontrol (EvCall th c)) by reflexivity.
  destruct (adds_getthread not_loopcontrol _ _ _ _ _ E2) as [ev2 [T2 F2]].
  destruct (adds_call_thread w not_loopcontrol _ _ (Hcall _ _) _ _ _ E3) as [ev3 [T3 F3]].
  assert (A4 : adds not_loopcontrol
                 (for_acc (seq 0 (n_measurements conf))
                    (fun rs _ => for_acc [1%Q; (-1)%Q] (measure_once w conf) rs) [])).
  { apply adds_for_acc. intros b x. apply adds_for_acc. intros b' cf.
    now apply adds_measure_once_calls. }
  destruct (A4 _ _ _ E4) as [ev4 [T4 F4]].
  destruct (adds_getthread not_loopcontrol _ _ _ _ _ E5) as [ev5 [T5 F5]].
  destruct (adds_call_thread w not_loopcontrol _ _ (Hcall _ _) _ _ _ E6) as [ev6 [T6 F6]].
  exists (ev2 ++ ev3 ++ ev4 ++ ev5 ++ ev6). split.
  - cbn [tick trace]. rewrite T6, T5, T4, T3, T2. cbn [tick trace].
    rewrite <- !app_assoc. reflexivity.
  - apply filter_not_loopcontrol. repeat (apply Forall_app; split); assumption.
Qed.

Lemma measure_resistance_pairs_on_return_witness :
  returns (fst (measure_resistance (sim_rig 100 0.001 4.2) (fun x => x)
                  (oneshot_conf (Some 0.001%Q) 2) s0)) = true
  /\ exists mid,
       trace (snd (measure_resistance (sim_rig 100 0.001 4.2) (fun x => x)
                     (oneshot_conf (Some 0.001%Q) 2) s0))
       = trace s0 ++ EvLoopcontrol false :: mid ++ [EvLoopcontrol true]
       /\ List.filter is_loopcontrol mid = [].
Proof.
  split; [vm_compute; reflexivity|].
  apply (measure_resistance_pairs_on_return (sim_rig 100 0.001 4.2) (fun x => x)
           (oneshot_conf (Some 0.001%Q) 2) s0).
  vm_compute. reflexivity.
Defined.

(** X10: with [n_measurements = 0] the loop body never runs: on a rig that
    answers, the measurement returns having only paused the loops, read the
    temperature twice and resumed the loops; no current is commanded and no
    voltage read, and an unset current or an unset current-source or
    voltmeter thread goes unnoticed. *)
Theorem measure_resistance_no_samples
  (w : World) (np_sqrt : Q -> Q) (conf : Conf) (th : string) (s : state) :
  n_measurements conf = 0%nat ->
  threadname_Temp conf = Some th ->
  th ∈ threads conf ->
  loops_ok w ->
  answers w ->
  returns (fst (measure_resistance w np_sqrt conf s)) = true
  /\ trace (snd (measure_resistance w np_sqrt conf s))
     = trace s ++ [EvLoopcontrol false; EvCall th read_Temperatures;
                   EvCall th read_Temperatures; EvLoopcontrol true].
Proof.
  intros Hn Hth Hin Hloop Hans.
  unfold measure_resistance, bind. rewrite Hn, Hth. cbn [seq for_acc ret].
  unfold loopcontrol_threads. rewrite !Hloop.
  rewrite (getthread_present _ _ _ Hin).
  match goal with
  | |- context [call_thread w th read_Temperatures ?st] =>
      destruct (call_thread_answers w th read_Temperatures st Hans) as [t0 E0]
  end.
  rewrite E0. rewrite (getthread_present _ _ _ Hin).
  match goal with
  | |- context [call_thread w th read_Temperatures (tick ?ev ?st)] =>
      destruct (call_thread_answers w th read_Temperatures (tick ev st) Hans) as [t1 E1]
  end.
  rewrite E1. rewrite Hloop. unfold ret, tick. cbn [fst snd returns now trace].
  split; [reflexivity|]. rewrite <- ?app_assoc. reflexivity.
Qed.

Lemma measure_resistance_no_samples_witness :
  let w := sim_rig 100 0.001 4.2 in
  let conf := {| threads := {[ "control_LakeShore350" ]} : gset string;
                 threadname_Temp := Some "control_LakeShore350";
                 threadname_RES := None;
                 threadname_CURR := None;
                 current_applied := None;
                 n_measurements := 0 |} in
  (n_measurements conf = 0%nat
   /\ threadname_Temp conf = Some "control_LakeShore350"
   /\ "control_LakeShore350" ∈ threads conf
   /\ loops_ok w
   /\ answers w)
  /\ returns (fst (measure_resistance w (fun x => x) conf s0)) = true
  /\ trace (snd (measure_resistance w (fun x => x) conf s0))
     = trace s0 ++ [EvLoopcontrol false; EvCall "control_LakeShore350" read_Temperatures;
                    EvCall "control_LakeShore350" read_Temperatures; EvLoopcontrol true].
Proof.
  intros w conf.
  assert (Hin : "control_LakeShore350" ∈ threads conf).
  { cbn [threads conf]. set_solver. }
  assert (Hloop : loops_ok w) by (intros tr b; reflexivity).
  assert (Hans : answers w).
  { intros tr th c. destruct c; eexists; reflexivity. }
  split.
  { split; [reflexivity|]. split; [reflexivity|]. split; [exact Hin|].
    split; assumption. }
  apply (measure_resistance_no_samples w (fun x => x) conf "control_LakeShore350" s0);
    [reflexivity | reflexivity | exact Hin | exact Hloop | exact Hans].
Defined.

Section Protocol.

Variable w : World.
Variable conf : Conf.
Variables tT tC tR : string.
Variable i : Q.
Hypothesis name_Temp : threadname_Temp conf = Some tT.
Hypothesis name_CURR : threadname_CURR conf = Some tC.
Hypothesis name_RES : threadname_RES conf = Some tR.
Hypothesis current_set : current_applied conf = Some i.

Lemma getthread_Returned (ts : gset string) (n th : string) (s s' : state) :
  getthread ts (Some n) s = (Returned th, s') -> th = n /\ s' = s.
Proof.
  unfold getthread. destruct (decide (n ∈ ts)); intros H; inversion H. auto.
Qed.

Lemma call_thread_Returned (th : string) (c : call) (q : Q) (s s' : state) :
  call_thread w th c s = (Returned q, s') -> s' = tick [EvCall th c] s.
Proof. unfold call_thread. intros H. now inversion H. Qed.

Lemma measure_once_trace (rs rs' : list Q) (cf : Q) (s s' : state) :
  measure_once w conf rs cf s = (Returned rs', s') ->
  trace s' = trace s ++ [EvCall tC (getto_setCurrent_A (i * cf));
                         EvCall tC (setCurrent_A (i * cf));
                         EvCall tR read_Voltage].
Proof.
  unfold measure_once, current_times. rewrite name_CURR, name_RES, current_set.
  intros H.
  apply bind_Returned in H. destruct H as [th1 [s1 [E1 H]]].
  apply getthread_Returned in E1. destruct E1; subst.
  apply bind_Returned in H. destruct H as [i1 [s1 [E1 H]]]. inversion E1; subst.
  apply bind_Returned in H. destruct H as [q1 [s2 [E2 H]]].
  apply call_thread_Returned in E2. subst.
  apply bind_Returned in H. destruct H as [th2 [s2 [E2 H]]].
  apply getthread_Returned in E2. destruct E2; subst.
  apply bind_Returned in H. destruct H as [i2 [s2 [E2 H]]]. inversion E2; subst.
  apply bind_Returned in H. destruct H as [q2 [s3 [E3 H]]].
  apply call_thread_Returned in E3. subst.
  apply bind_Returned in H. destruct H as [th3 [s3 [E3 H]]].
  apply getthread_Returned in E3. destruct E3; subst.
  apply bind_Returned in H. destruct H as [v [s4 [E4 H]]].
  apply call_thread_Returned in E4. subst.
  cbv zeta in H.
  apply bind_Returned in H. destruct H as [i3 [s4 [E4 H]]]. inversion E4; subst.
  apply bind_Returned in H. destruct H as [r [s5 [E5 H]]].
  unfold divide in E5. destruct (Qeq_bool (i * cf) 0); inversion E5; subst.
  inversion H; subst. cbn [tick trace]. now rewrite <- !app_assoc.
Qed.

Lemma measure_pair_trace (rs rs' : list Q) (s s' : state) :
  for_acc [1%Q; (-1)%Q] (measure_once w conf) rs s = (Returned rs', s') ->
  trace s' = trace s ++ sample_events tC tR i.
Proof.
  cbn [for_acc]. intros H.
  apply bind_Returned in H. destruct H as [r1 [s1 [E1 H]]].
  apply bind_Returned in H. destruct H as [r2 [s2 [E2 H]]].
  inversion H; subst.
  rewrite (measure_once_trace _ _ _ _ _ E2), (measure_once_trace _ _ _ _ _ E1).
  now rewrite <- app_assoc.
Qed.

Lemma measure_loop_trace (l : list nat) :
  forall (rs rs' : list Q) (s s' : state),
    for_acc l (fun rs _ => for_acc [1%Q; (-1)%Q] (measure_once w conf) rs) rs s
    = (Returned rs', s') ->
    trace s' = trace s ++ concat (repeat (sample_events tC tR i) (length l)).
Proof.
  induction l as [|x l IH]; intros rs rs' s s' H.
  - inversion H; subst. cbn [length repeat concat]. now rewrite app_nil_r.
  - rewrite for_acc_cons in H.
    apply bind_Returned in H. destruct H as [r1 [s1 [E1 H]]].
    rewrite (IH _ _ _ _ H), (measure_pair_trace _ _ _ _ E1).
    cbn [length repeat concat]. now rewrite <- app_assoc.
Qed.

Lemma measure_resistance_trace (np_sqrt : Q -> Q) (s s' : state) (d : Data) :
  measure_resistance w np_sqrt conf s = (Returned d, s') ->
  trace s'
  = trace s
    ++ [EvLoopcontrol false; EvCall tT read_Temperatures]
    ++ concat (repeat (sample_events tC tR i) (n_measurements conf))
    ++ [EvCall tT read_Temperatures; EvLoopcontrol true].
Proof.
  unfold measure_resistance. rewrite name_Temp. intros H.
  apply bind_Returned in H. destruct H as [u [s1 [E1 H]]].
  inversion E1; subst.
  apply bind_Returned in H. destruct H as [th [s2 [E2 H]]].
  apply getthread_Returned in E2. destruct E2; subst.
  apply bind_Returned in H. destruct H as [t0 [s3 [E3 H]]].
  apply call_thread_Returned in E3. subst.
  apply bind_Returned in H. destruct H as [rs [s4 [E4 H]]].
  apply measure_loop_trace in E4. rewrite length_seq in E4.
  apply bind_Returned in H. destruct H as [th' [s5 [E5 H]]].
  apply getthread_Returned in E5. destruct E5; subst.
  apply bind_Returned in H. destruct H as [t1 [s6 [E6 H]]].
  apply call_thread_Returned in E6. subst.
  apply bind_Returned in H. destruct H as [u' [s7 [E7 H]]].
  inversion E7; subst. inversion H; subst.
  cbn [tick trace]. rewrite E4. cbn [tick trace].
  rewrite <- !app_assoc. reflexivity.
Qed.

End Protocol.

(** X11: the whole exchange of a measurement that returns: pause the
    loops, read the temperature, then for every sample prepare and commit
    [+i] and read the voltage, prepare and commit [-i] and read the voltage,
    then read the temperature and resume the loops; nothing else, in this
    order, with two voltage readings a sample. *)
Theorem measure_resistance_protocol
  (w : World) (np_sqrt : Q -> Q) (conf : Conf) (tT tC tR : string) (i : Q) (s : state) :
  threadname_Temp conf = Some tT ->
  threadname_CURR conf = Some tC ->
  threadname_RES conf = Some tR ->
  current_applied conf = Some i ->
  returns (fst (measure_resistance w np_sqrt conf s)) = true ->
  trace (snd (measure_resistance w np_sqrt conf s))
  = trace s
    ++ [EvLoopcontrol false; EvCall tT read_Temperatures]
    ++ concat (repeat (sample_events tC tR i) (n_measurements conf))
    ++ [EvCall tT read_Temperatures; EvLoopcontrol true].
Proof.
  intros HT HC HR Hi Hret.
  destruct (measure_resistance w np_sqrt conf s) as [[d|e|] s'] eqn:E;
    try discriminate.
  cbn [snd]. exact (measure_resistance_trace w conf tT tC tR i HT HC HR Hi np_sqrt s s' d E).
Qed.

Lemma measure_resistance_protocol_witness :
  let w := sim_rig 100 0.001 4.2 in
  let conf := oneshot_conf (Some 0.001%Q) 3 in
  (threadname_Temp conf = Some "control_LakeShore350"
   /\ threadname_CURR conf = Some "control_Keithley"
   /\ threadname_RES conf = Some "control_Nano"
   /\ current_applied conf = Some 0.001%Q
   /\ returns (fst (measure_resistance w (fun x => x) conf s0)) = true)
  /\ trace (snd (measure_resistance w (fun x => x) conf s0))
     = trace s0
       ++ [EvLoopcontrol false; EvCall "control_LakeShore350" read_Temperatures]
       ++ concat (repeat (sample_events "control_Keithley" "control_Nano" 0.001)
                    (n_measurements conf))
       ++ [EvCall "control_LakeShore350" read_Temperatures; EvLoopcontrol true].
Proof.
  intros w conf. split.
  { repeat split; reflexivity. }
  apply (measure_resistance_protocol w (fun x => x) conf
           "control_LakeShore350" "control_Keithley" "control_Nano" 0.001%Q s0);
    reflexivity.
Defined.

(** * Properties of the drivers *)

(** ** Stripping and splitting *)

Lemma append_cons (c : Ascii.ascii) (s1 s2 : string) :
  String.append (String c s1) s2 = String c (String.append s1 s2).
Proof. reflexivity. Qed.

Lemma append_nil (s : string) : String.append EmptyString s = s.
Proof. reflexivity. Qed.

Lemma lstrip_app_space (pre s : string) :
  PyStr.all_space pre = true ->
  PyStr.lstrip (String.append pre s) = PyStr.lstrip s.
Proof.
  induction pre as [|c pre IH]; intros H; [reflexivity|].
  cbn [PyStr.all_space] in H. apply andb_prop in H. destruct H as [Hc Hp].
  rewrite append_cons. cbn [PyStr.lstrip]. rewrite Hc. now apply IH.
Qed.

Lemma lstrip_all_space (s : string) :
  PyStr.all_space s = true -> PyStr.lstrip s = EmptyString.
Proof.
  induction s as [|c s IH]; intros H; [reflexivity|].
  cbn [PyStr.all_space] in H. apply andb_prop in H. destruct H as [Hc Hp].
  cbn [PyStr.lstrip]. rewrite Hc. now apply IH.
Qed.

Lemma lstrip_no_space (s : string) :
  PyStr.starts_with_space s = false -> PyStr.lstrip s = s.
Proof.
  destruct s as [|c s]; [reflexivity|]. cbn. intros H. now rewrite H.
Qed.

Lemma rstrip_all_space (s : string) :
  PyStr.all_space s = true -> PyStr.rstrip s = EmptyString.
Proof.
  induction s as [|c s IH]; intros H; [reflexivity|].
  cbn [PyStr.all_space] in H. apply andb_prop in H. destruct H as [Hc Hp].
  cbn [PyStr.rstrip]. rewrite (IH Hp). now rewrite Hc.
Qed.

Lemma rstrip_app_space (s post : string) :
  PyStr.all_space post = true ->
  PyStr.rstrip (String.append s post) = PyStr.rstrip s.
Proof.
  intros H. induction s as [|c s IH].
  - rewrite append_nil. now apply rstrip_all_space.
  - rewrite append_cons. cbn [PyStr.rstrip]. now rewrite IH.
Qed.

Lemma rstrip_no_space (s : string) :
  PyStr.ends_with_space s = false -> PyStr.rstrip s = s.
Proof.
  induction s as [|c s IH]; [reflexivity|].
  intros H. cbn [PyStr.rstrip]. destruct s as [|c' s'].
  - cbn [PyStr.rstrip PyStr.ends_with_space] in *. now rewrite H.
  - rewrite IH by exact H. reflexivity.
Qed.

Lemma starts_with_space_app (core post : string) :
  core <> EmptyString ->
  PyStr.starts_with_space (String.append core post) = PyStr.starts_with_space core.
Proof. destruct core; [contradiction | reflexivity]. Qed.

Lemma strip_padded (pre core post : string) :
  PyStr.all_space pre = true ->
  PyStr.all_space post = true ->
  PyStr.starts_with_space core = false ->
  PyStr.ends_with_space core = false ->
  PyStr.strip (String.append pre (String.append core post)) = core.
Proof.
  intros Hpre Hpost Hs He. unfold PyStr.strip.
  rewrite (lstrip_app_space _ _ Hpre).
  destruct core as [|c core].
  - rewrite append_nil. now rewrite (lstrip_all_space _ Hpost).
  - rewrite lstrip_no_space
      by (rewrite starts_with_space_app; [exact Hs | discriminate]).
    rewrite (rstrip_app_space _ _ Hpost). now apply rstrip_no_space.
Qed.

Lemma split_nonempty (sep : Ascii.ascii) (s : string) : PyStr.split sep s <> [].
Proof.
  destruct s as [|c s]; cbn [PyStr.split]; [discriminate|].
  destruct (Ascii.eqb c sep); [discriminate|].
  destruct (PyStr.split sep s); discriminate.
Qed.

Lemma join_split (sep : Ascii.ascii) (s : string) :
  PyStr.join sep (PyStr.split sep s) = s.
Proof.
  induction s as [|c s IH]; [reflexivity|].
  cbn [PyStr.split]. destruct (Ascii.eqb c sep) eqn:E.
  - apply Ascii.eqb_eq in E. subst c.
    destruct (PyStr.split sep s) as [|f fs] eqn:Es;
      [exfalso; exact (split_nonempty sep s Es)|].
    cbn [PyStr.join] in *. rewrite append_nil. now rewrite IH.
  - destruct (PyStr.split sep s) as [|f fs] eqn:Es;
      [exfalso; exact (split_nonempty sep s Es)|].
    destruct fs as [|g gs]; cbn [PyStr.join] in *.
    + now rewrite IH.
    + rewrite append_cons. now rewrite IH.
Qed.

Lemma split_length (sep : Ascii.ascii) (s : string) :
  length (PyStr.split sep s) = S (PyStr.count sep s).
Proof.
  induction s as [|c s IH]; [reflexivity|].
  cbn [PyStr.split PyStr.count]. destruct (Ascii.eqb c sep).
  - cbn [length]. now rewrite IH.
  - destruct (PyStr.split sep s) as [|f fs] eqn:Es;
      [exfalso; exact (split_nonempty sep s Es)|].
    cbn [length] in *. now rewrite IH.
Qed.

Lemma split_no_sep (sep : Ascii.ascii) (s : string) :
  List.Forall (fun f => PyStr.count sep f = 0%nat) (PyStr.split sep s).
Proof.
  induction s as [|c s IH]; [repeat constructor|].
  cbn [PyStr.split]. destruct (Ascii.eqb c sep) eqn:E.
  - constructor; [reflexivity | exact IH].
  - destruct (PyStr.split sep s) as [|f fs] eqn:Es;
      [exfalso; exact (split_nonempty sep s Es)|].
    inversion IH as [|f' fs' Hf Hfs]; subst.
    constructor; [|exact Hfs]. cbn [PyStr.count]. now rewrite E, Hf.
Qed.

Lemma split_plain (sep : Ascii.ascii) (f : string) :
  PyStr.count sep f = 0%nat -> PyStr.split sep f = [f].
Proof.
  induction f as [|c f IH]; [reflexivity|].
  cbn [PyStr.count PyStr.split]. destruct (Ascii.eqb c sep); [discriminate|].
  intros H. now rewrite (IH H).
Qed.

Lemma split_app_sep (sep : Ascii.ascii) (f rest : string) :
  PyStr.count sep f = 0%nat ->
  PyStr.split sep (String.append f (String sep rest)) = f :: PyStr.split sep rest.
Proof.
  induction f as [|c f IH].
  - intros _. rewrite append_nil. cbn [PyStr.split]. now rewrite Ascii.eqb_refl.
  - cbn [PyStr.count]. rewrite append_cons. cbn [PyStr.split].
    destruct (Ascii.eqb c sep); [discriminate|].
    intros H. now rewrite (IH H).
Qed.

Lemma split_join (sep : Ascii.ascii) (fs : list string) :
  fs <> [] ->
  List.Forall (fun f => PyStr.count sep f = 0%nat) fs ->
  PyStr.split sep (PyStr.join sep fs) = fs.
Proof.
  induction fs as [|f fs IH]; [contradiction|].
  intros _ H. inversion H as [|f' fs' Hf Hfs]; subst.
  destruct fs as [|g gs].
  - cbn [PyStr.join]. now apply split_plain.
  - change (PyStr.join sep (f :: g :: gs))
      with (String.append f (String sep (PyStr.join sep (g :: gs)))).
    rewrite (split_app_sep _ _ _ Hf). rewrite IH; [reflexivity | discriminate | exact Hfs].
Qed.

(** ** The GPIB query *)

Lemma with_lock_visa (dev : Bus.Device) (o : Bus.op) (s : Bus.bus) :
  Bus.comLock s = false ->
  Bus.with_lock (Bus.visa dev o) s
  = (match Bus.respond dev (Bus.log s ++ [Bus.Acquire]) o with
     | Drivers.Ok a => Bus.Done a
     | Drivers.Err e => Bus.Fail e
     end,
     {| Bus.comLock := false;
        Bus.log := Bus.log s ++ [Bus.Acquire; Bus.Visa o; Bus.Release] |}).
Proof.
  intros H. unfold Bus.with_lock, Bus.visa. rewrite H. cbn [Bus.log Bus.comLock].
  destruct (Bus.respond dev (Bus.log s ++ [Bus.Acquire]) o);
    f_equal; f_equal; now rewrite <- !app_assoc.
Qed.

(** X12: what [AbstractGPIBDeviceDriver.query] returns for an answer of the
    instrument: at least one field, no field with a comma in it, one field
    more than the stripped answer has commas, and the fields joined by
    commas are the stripped answer again; the lock is free afterwards. *)
Theorem gpib_query_fields
  (dev : Bus.Device) (command received : string) (s : Bus.bus) :
  Bus.comLock s = false ->
  Bus.respond dev (Bus.log s ++ [Bus.Acquire]) (Bus.Query command) = Drivers.Ok received ->
  exists fields,
    Bus.gpib_query dev command s
    = (Bus.Done fields,
       {| Bus.comLock := false;
          Bus.log := Bus.log s ++ [Bus.Acquire; Bus.Visa (Bus.Query command); Bus.Release] |})
    /\ fields <> []
    /\ List.Forall (fun f => PyStr.count PyStr.comma f = 0%nat) fields
    /\ length fields = S (PyStr.count PyStr.comma (PyStr.strip received))
    /\ PyStr.join PyStr.comma fields = PyStr.strip received.
Proof.
  intros Hlock Hans.
  exists (PyStr.split PyStr.comma (PyStr.strip received)).
  split; [|split; [|split; [|split]]].
  - unfold Bus.gpib_query, Bus.bind. rewrite (with_lock_visa dev _ s Hlock), Hans.
    reflexivity.
  - apply split_nonempty.
  - apply split_no_sep.
  - apply split_length.
  - apply join_split.
Qed.

(** X13: the other way round: when the instrument sends fields without
    commas joined by commas, with any whitespace before and after (the
    joined fields themselves neither starting nor ending with whitespace),
    the query returns exactly these fields. *)
Theorem gpib_query_parses_padded_fields
  (dev : Bus.Device) (command pre post : string) (fs : list string) (s : Bus.bus) :
  Bus.comLock s = false ->
  fs <> [] ->
  List.Forall (fun f => PyStr.count PyStr.comma f = 0%nat) fs ->
  PyStr.all_space pre = true ->
  PyStr.all_space post = true ->
  PyStr.starts_with_space (PyStr.join PyStr.comma fs) = false ->
  PyStr.ends_with_space (PyStr.join PyStr.comma fs) = false ->
  Bus.respond dev (Bus.log s ++ [Bus.Acquire]) (Bus.Query command)
  = Drivers.Ok (String.append pre (String.append (PyStr.join PyStr.comma fs) post)) ->
  fst (Bus.gpib_query dev command s) = Bus.Done fs.
Proof.
  intros Hlock Hne Hfs Hpre Hpost Hs He Hans.
  unfold Bus.gpib_query, Bus.bind. rewrite (with_lock_visa dev _ s Hlock), Hans.
  cbn [fst Bus.ret]. rewrite (strip_padded _ _ _ Hpre Hpost Hs He).
  now rewrite (split_join _ _ Hne Hfs).
Qed.

Lemma gpib_query_fields_witness :
  let received := String.append " 4.2,+0.001" PyStr.newline in
  let dev := Bus.scripted sample_message [Drivers.Ok received] in
  (Bus.comLock Bus.idle = false
   /\ Bus.respond dev (Bus.log Bus.idle ++ [Bus.Acquire]) (Bus.Query "READ?")
      = Drivers.Ok received)
  /\ exists fields,
       Bus.gpib_query dev "READ?" Bus.idle
       = (Bus.Done fields,
          {| Bus.comLock := false;
             Bus.log := Bus.log Bus.idle
                        ++ [Bus.Acquire; Bus.Visa (Bus.Query "READ?"); Bus.Release] |})
       /\ fields <> []
       /\ List.Forall (fun f => PyStr.count PyStr.comma f = 0%nat) fields
       /\ length fields = S (PyStr.count PyStr.comma (PyStr.strip received))
       /\ PyStr.join PyStr.comma fields = PyStr.strip received.
Proof.
  intros received dev. split; [split; reflexivity|].
  apply (gpib_query_fields dev "READ?" received Bus.idle); reflexivity.
Defined.

Lemma gpib_query_parses_padded_fields_witness :
  let fs := ["4.2"; "+0.001"] in
  let received := String.append " " (String.append (PyStr.join PyStr.comma fs) PyStr.newline) in
  let dev := Bus.scripted sample_message [Drivers.Ok received] in
  (Bus.comLock Bus.idle = false
   /\ fs <> []
   /\ List.Forall (fun f => PyStr.count PyStr.comma f = 0%nat) fs
   /\ PyStr.all_space " " = true
   /\ PyStr.all_space PyStr.newline = true
   /\ PyStr.starts_with_space (PyStr.join PyStr.comma fs) = false
   /\ PyStr.ends_with_space (PyStr.join PyStr.comma fs) = false
   /\ Bus.respond dev (Bus.log Bus.idle ++ [Bus.Acquire]) (Bus.Query "READ?")
      = Drivers.Ok received)
  /\ fst (Bus.gpib_query dev "READ?" Bus.idle) = Bus.Done fs.
Proof.
  intros fs received dev.
  assert (Hfs : List.Forall (fun f => PyStr.count PyStr.comma f = 0%nat) fs).
  { repeat constructor. }
  split.
  { split; [reflexivity|]. split; [discriminate|]. split; [exact Hfs|].
    repeat split; reflexivity. }
  apply (gpib_query_parses_padded_fields dev "READ?" " " PyStr.newline fs Bus.idle);
    try reflexivity; [discriminate | exact Hfs].
Defined.

(** ** The lock of the serial driver *)

(** X14: an unforced [write] and a [query] that find the lock free give it
    back whatever the instrument does.  When the operation succeeds the
    delay is slept inside the lock; when it raises, the exception goes to
    the caller, the delay is skipped and the lock is still given back. *)
Theorem serial_lock_given_back
  (self : Bus.AbstractSerialDeviceDriver) (dev : Bus.Device)
  (command : string) (s : Bus.bus) :
  Bus.comLock s = false ->
  (0 <= Bus.delay self)%Q ->
  Bus.write self dev command false s
  = match Bus.respond dev (Bus.log s ++ [Bus.Acquire]) (Bus.Write command) with
    | Drivers.Ok _ =>
        (Bus.Done tt,
         {| Bus.comLock := false;
            Bus.log := Bus.log s ++ [Bus.Acquire; Bus.Visa (Bus.Write command);
                                     Bus.Sleep (Bus.delay self); Bus.Release] |})
    | Drivers.Err e =>
        (Bus.Fail e,
         {| Bus.comLock := false;
            Bus.log := Bus.log s ++ [Bus.Acquire; Bus.Visa (Bus.Write command);
                                     Bus.Release] |})
    end
  /\ Bus.query self dev command s
     = match Bus.respond dev (Bus.log s ++ [Bus.Acquire]) (Bus.Query command) with
       | Drivers.Ok answer =>
           (Bus.Done answer,
            {| Bus.comLock := false;
               Bus.log := Bus.log s ++ [Bus.Acquire; Bus.Visa (Bus.Query command);
                                        Bus.Sleep (Bus.delay self); Bus.Release] |})
       | Drivers.Err e =>
           (Bus.Fail e,
            {| Bus.comLock := false;
               Bus.log := Bus.log s ++ [Bus.Acquire; Bus.Visa (Bus.Query command);
                                        Bus.Release] |})
       end.
Proof.
  intros Hlock Hd. apply Qle_bool_iff in Hd. split.
  - unfold Bus.write, Bus.with_lock, Bus.bind, Bus.visa, Bus.sleep.
    cbn [negb]. rewrite Hlock. cbn [Bus.log Bus.comLock].
    destruct (Bus.respond dev (Bus.log s ++ [Bus.Acquire]) (Bus.Write command)).
    + rewrite Hd. cbn [Bus.log Bus.comLock]. f_equal. f_equal.
      now rewrite <- !app_assoc.
    + cbn [Bus.log Bus.comLock]. f_equal. f_equal. now rewrite <- !app_assoc.
  - unfold Bus.query, Bus.with_lock, Bus.bind, Bus.visa, Bus.sleep, Bus.ret.
    rewrite Hlock. cbn [Bus.log Bus.comLock].
    destruct (Bus.respond dev (Bus.log s ++ [Bus.Acquire]) (Bus.Query command)).
    + rewrite Hd. cbn [Bus.log Bus.comLock]. f_equal. f_equal.
      now rewrite <- !app_assoc.
    + cbn [Bus.log Bus.comLock]. f_equal. f_equal. now rewrite <- !app_assoc.
Qed.

Lemma serial_lock_given_back_witness :
  let dev := Bus.scripted sample_message [] in
  (Bus.comLock Bus.idle = false /\ (0 <= Bus.delay Bus.new_driver)%Q)
  /\ Bus.write Bus.new_driver dev "T4.2" false Bus.idle
     = match Bus.respond dev (Bus.log Bus.idle ++ [Bus.Acquire]) (Bus.Write "T4.2") with
       | Drivers.Ok _ =>
           (Bus.Done tt,
            {| Bus.comLock := false;
               Bus.log := Bus.log Bus.idle
                          ++ [Bus.Acquire; Bus.Visa (Bus.Write "T4.2");
                              Bus.Sleep (Bus.delay Bus.new_driver); Bus.Release] |})
       | Drivers.Err e =>
           (Bus.Fail e,
            {| Bus.comLock := false;
               Bus.log := Bus.log Bus.idle
                          ++ [Bus.Acquire; Bus.Visa (Bus.Write "T4.2"); Bus.Release] |})
       end
  /\ Bus.query Bus.new_driver dev "T4.2" Bus.idle
     = match Bus.respond dev (Bus.log Bus.idle ++ [Bus.Acquire]) (Bus.Query "T4.2") with
       | Drivers.Ok answer =>
           (Bus.Done answer,
            {| Bus.comLock := false;
               Bus.log := Bus.log Bus.idle
                          ++ [Bus.Acquire; Bus.Visa (Bus.Query "T4.2");
                              Bus.Sleep (Bus.delay Bus.new_driver); Bus.Release] |})
       | Drivers.Err e =>
           (Bus.Fail e,
            {| Bus.comLock := false;
               Bus.log := Bus.log Bus.idle
                          ++ [Bus.Acquire; Bus.Visa (Bus.Query "T4.2"); Bus.Release] |})
       end.
Proof.
  intros dev. split; [split; [reflexivity | discriminate]|].
  apply (serial_lock_given_back Bus.new_driver dev "T4.2" Bus.idle);
    [reflexivity | discriminate].
Defined.

(** X15: while another thread holds the lock, an unforced [write] waits
    and sends nothing, but a forced one ([f=True]) goes through at once: it
    sends the command, sleeps [delay_force] when the instrument took it, and
    neither takes nor gives back the lock. *)
Theorem forced_write_bypasses_lock
  (self : Bus.AbstractSerialDeviceDriver) (dev : Bus.Device)
  (command : string) (s : Bus.bus) :
  Bus.comLock s = true ->
  (0 <= Bus.delay_force self)%Q ->
  Bus.write self dev command false s = (Bus.Blocked, s)
  /\ Bus.write self dev command true s
     = match Bus.respond dev (Bus.log s) (Bus.Write command) with
       | Drivers.Ok _ =>
           (Bus.Done tt,
            {| Bus.comLock := true;
               Bus.log := Bus.log s ++ [Bus.Visa (Bus.Write command);
                                        Bus.Sleep (Bus.delay_force self)] |})
       | Drivers.Err e =>
           (Bus.Fail e,
            {| Bus.comLock := true;
               Bus.log := Bus.log s ++ [Bus.Visa (Bus.Write command)] |})
       end.
Proof.
  intros Hlock Hd. apply Qle_bool_iff in Hd. split.
  - unfold Bus.write, Bus.with_lock. cbn [negb]. now rewrite Hlock.
  - unfold Bus.write, Bus.bind, Bus.visa, Bus.sleep. cbn [negb].
    rewrite Hlock.
    destruct (Bus.respond dev (Bus.log s) (Bus.Write command)).
    + cbn [Bus.log Bus.comLock]. rewrite Hd. f_equal. f_equal.
      now rewrite <- !app_assoc.
    + reflexivity.
Qed.

Lemma forced_write_bypasses_lock_witness :
  let dev := Bus.scripted sample_message [Drivers.Ok ""] in
  let held := {| Bus.comLock := true; Bus.log := [Bus.Acquire] |} in
  (Bus.comLock held = true /\ (0 <= Bus.delay_force Bus.new_driver)%Q)
  /\ Bus.write Bus.new_driver dev "H1" false held = (Bus.Blocked, held)
  /\ Bus.write Bus.new_driver dev "H1" true held
     = match Bus.respond dev (Bus.log held) (Bus.Write "H1") with
       | Drivers.Ok _ =>
           (Bus.Done tt,
            {| Bus.comLock := true;
               Bus.log := Bus.log held ++ [Bus.Visa (Bus.Write "H1");
                                           Bus.Sleep (Bus.delay_force Bus.new_driver)] |})
       | Drivers.Err e =>
           (Bus.Fail e,
            {| Bus.comLock := true;
               Bus.log := Bus.log held ++ [Bus.Visa (Bus.Write "H1")] |})
       end.
Proof.
  intros dev held. split; [split; [reflexivity | discriminate]|].
  apply (forced_write_bypasses_lock Bus.new_driver dev "H1" held);
    [reflexivity | discriminate].
Defined.

(** X16: [clear_buffers] reads once, under the lock, and gives the lock
    back: a message that was pending or the timeout of an empty buffer both
    end in a plain return, and further pending messages stay where they
    are. *)
Theorem clear_buffers_reads_once
  (visa_message : Z -> string) (dev : Bus.Device) (s : Bus.bus) :
  Bus.comLock s = false ->
  snd (Bus.clear_buffers visa_message dev s)
  = {| Bus.comLock := false;
       Bus.log := Bus.log s ++ [Bus.Acquire; Bus.Visa Bus.Read; Bus.Release] |}
  /\ (forall answer,
        Bus.respond dev (Bus.log s ++ [Bus.Acquire]) Bus.Read = Drivers.Ok answer ->
        fst (Bus.clear_buffers visa_message dev s) = Bus.Done tt)
  /\ (Bus.respond dev (Bus.log s ++ [Bus.Acquire]) Bus.Read
      = Drivers.Err (Drivers.timeouterror visa_message) ->
      fst (Bus.clear_buffers visa_message dev s) = Bus.Done tt).
Proof.
  intros Hlock. unfold Bus.clear_buffers, Bus.read.
  rewrite (with_lock_visa dev Bus.Read s Hlock).
  destruct (Bus.respond dev (Bus.log s ++ [Bus.Acquire]) Bus.Read) as [a|e] eqn:E.
  - split; [reflexivity|]. split; [reflexivity | discriminate].
  - split; [|split; [discriminate|]].
    + destruct (Drivers.isinstance e Drivers.VisaIOError); [|reflexivity].
      destruct (_ && _); reflexivity.
    + intros He. inversion He; subst. unfold Drivers.isinstance.
      change (Drivers.exc_type (Drivers.timeouterror visa_message))
        with Drivers.VisaIOError.
      destruct (decide (Drivers.VisaIOError = Drivers.VisaIOError)); [|contradiction].
      cbn [andb].
      destruct (decide (Drivers.args (Drivers.timeouterror visa_message)
                        = Drivers.args (Drivers.timeouterror visa_message)));
        [reflexivity | contradiction].
Qed.

Lemma clear_buffers_reads_once_witness :
  let dev := Bus.scripted sample_message [Drivers.Ok "stale"; Drivers.Ok "fresh"] in
  Bus.comLock Bus.idle = false
  /\ snd (Bus.clear_buffers sample_message dev Bus.idle)
     = {| Bus.comLock := false;
          Bus.log := Bus.log Bus.idle ++ [Bus.Acquire; Bus.Visa Bus.Read; Bus.Release] |}
  /\ (forall answer,
        Bus.respond dev (Bus.log Bus.idle ++ [Bus.Acquire]) Bus.Read = Drivers.Ok answer ->
        fst (Bus.clear_buffers sample_message dev Bus.idle) = Bus.Done tt)
  /\ (Bus.respond dev (Bus.log Bus.idle ++ [Bus.Acquire]) Bus.Read
      = Drivers.Err (Drivers.timeouterror sample_message) ->
      fst (Bus.clear_buffers sample_message dev Bus.idle) = Bus.Done tt).
Proof.
  intros dev. split; [reflexivity|].
  apply (clear_buffers_reads_once sample_message dev Bus.idle). reflexivity.
Defined.

(** X17: both constructors choose the Agilent resource manager for ['ag']
    with any whitespace around it; the choice is made on the stripped
    text. *)
Theorem resource_manager_ignores_padding (pre post : string) :
  PyStr.all_space pre = true ->
  PyStr.all_space post = true ->
  Bus.resource_manager (String.append pre (String.append "ag" post))
  = Bus.AGILENT_RESOURCE_MANAGER.
Proof.
  intros Hpre Hpost. unfold Bus.resource_manager.
  rewrite (strip_padded pre "ag" post Hpre Hpost eq_refl eq_refl).
  destruct (decide ("ag" = "ag")); [reflexivity | contradiction].
Qed.

Lemma resource_manager_ignores_padding_witness :
  (PyStr.all_space " " = true /\ PyStr.all_space PyStr.newline = true)
  /\ Bus.resource_manager (String.append " " (String.append "ag" PyStr.newline))
     = Bus.AGILENT_RESOURCE_MANAGER.
Proof.
  split; [split; reflexivity|].
  apply (resource_manager_ignores_padding " " PyStr.newline); reflexivity.
Defined.

(** * Steps of an unknown kind: the run goes on *)



(** The run of the witness above, step by step: the scan before the unknown
    step and the scan and the wait after it have all been executed, in this
    order. *)
Example unknown_step_run :
  running (sim_rig 0 0 4.2)
    (engine [scan_entry [10%Q]; other_entry "scan_B"; scan_entry [20%Q];
             wait_entry 4.2 0 1] 5) 0 s0
  = (Returned None,
     {| now := 21;
        trace :=
          setpoints_events false
          ++ scan_events (engine [] 5) 10 ++ scan_events (engine [] 5) 20
          ++ [EvSleep 0.1; EvSleep 1]
          ++ setpoints_events true |}).
Proof. vm_compute. reflexivity. Qed.
